(** * zabbix-media-watcher: the two reconciliation engines of [main.go]

    The watcher polls a Zabbix server.  Each pass of the loop in [main] runs
    [processMediaTypes] (tracks since when a media type is disabled and
    re-enables it after [OffDuration]) and then [processUserGroups] (diffs the
    user groups against the last snapshot).

    Embedding.  Go maps are [gmap]s, [time.Time] is an instant in
    nanoseconds, [time.Duration] is a 64-bit count of nanoseconds.  What the
    outside world answers during one pass (HTTP replies, clock readings, the
    outcome of a file write) is an input record of that pass; what the pass
    does to the outside world (HTTP updates, webhook posts, syslog lines, file
    writes) is the list of [Event]s it returns, in program order.  The
    [logrus] stream on stdout is diagnostic only and is not part of the
    model.  Start-up is covered as well: [loadConfig] over the environment,
    [loadState] and [loadGroupState] over what the file system returns. *)

From Stdlib Require Import ZArith Lia DecimalString.
From Stdlib Require OrderedTypeEx.
From stdpp Require Import gmap strings list sorting.

Local Open Scope Z_scope.

(** ** Package [time] as far as [main.go] uses it *)

Module GoTime.

(** An instant, in nanoseconds on the clock the two operands share. *)
Definition Time := Z.
(** [type Duration int64], nanoseconds. *)
Definition Duration := Z.

Definition minDuration : Duration := - 2 ^ 63.
Definition maxDuration : Duration := 2 ^ 63 - 1.
Definition Second : Duration := 1000000000.
Definition Minute : Duration := 60 * Second.

(** Two's complement wrap-around of 64-bit signed arithmetic. *)
Definition int64 (z : Z) : Z := (z + 2 ^ 63) mod 2 ^ 64 - 2 ^ 63.
Definition uint64 (z : Z) : Z := z mod 2 ^ 64.

(** [t.Sub(u)]: the difference, saturated to the range of [Duration]. *)
Definition Sub (t u : Time) : Duration :=
  if t - u <? minDuration then minDuration
  else if maxDuration <? t - u then maxDuration
  else t - u.

(** [time.Since(t)] is [time.Now().Sub(t)]; [now] is what [time.Now()]
    returns at the call. *)
Definition Since (now t : Time) : Duration := Sub now t.

Definition lessThanHalf (x y : Duration) : bool :=
  uint64 (uint64 x + uint64 x) <? uint64 y.

(** [d.Round(m)]: nearest multiple of [m], halfway values away from zero,
    saturating when the result leaves the range. *)
Definition Round (d m : Duration) : Duration :=
  if m <=? 0 then d
  else
    let r := Z.rem d m in
    if d <? 0 then
      let r := - r in
      if lessThanHalf r m then int64 (d + r)
      else
        let d1 := int64 (int64 (d - m) + r) in
        if d1 <? d then d1 else minDuration
    else
      if lessThanHalf r m then int64 (d - r)
      else
        let d1 := int64 (int64 (d + m) - r) in
        if d <? d1 then d1 else maxDuration.

(** [d.Minutes() >= 30].  [Minutes] is
    [float64(d / Minute) + float64(d % Minute) / 60e9]; the integer part is
    exact and the fraction lies strictly inside (-1, 1) by more than 1e-11,
    so the floating-point test agrees with the integer one. *)
Definition Minutes_ge_30 (d : Duration) : bool := 30 * Minute <=? d.

End GoTime.
Export GoTime.

(** ** Data model *)

Record Config := mkConfig {
  ZabbixAPIURL : string;
  APIToken : string;
  CheckInterval : Duration;
  OffDuration : Duration;
  MediaNames : list string;
  StateFile : string;
  MattermostWebhook : string
}.

Record MediaType := mkMediaType {
  MediaTypeID : string;
  Name : string;
  Status : string
}.

(** [type MediaState map[string]time.Time] *)
Abbreviation MediaState := (gmap string Time).

Record UserGroup := mkUserGroup {
  ID : string;
  GroupName : string;
  Users : list string
}.

(** [type GroupState map[string]UserGroup] *)
Abbreviation GroupState := (gmap string UserGroup).

Definition groupStateFilename : string := "usergroup_state.json".

(** What one JSON-RPC call can come back with: [http.Post] fails, the body
    does not decode, or it decodes into the anonymous response struct
    (absent fields are Go zero values, so no error means [code = 0]). *)
Inductive Reply (A : Type) : Type :=
| TransportError (err : string)
| MalformedBody (err : string)
| Decoded (result : A) (code : Z) (message data : string).
Arguments TransportError {A} err.
Arguments MalformedBody {A} err.
Arguments Decoded {A} result code message data.

(** Effects on the outside world. *)
Inductive Event : Type :=
| MediatypeUpdate (mediaTypeID : string)
    (* enableMediaType: POST mediatype.update with status "0" *)
| MattermostPost (webhook text : string)
    (* sendMattermostNotification: POST {"text": text} *)
| SyslogWarning (line : string)
| SyslogInfo (line : string)
| WriteMediaState (filename : string) (content : MediaState) (err : option string)
| WriteGroupState (filename : string) (content : GroupState) (err : option string).

(** One element of [result] in the reply to usergroup.get. *)
Record RawGroup := mkRawGroup {
  rawID : string;
  rawName : string;
  rawUsers : list string   (* the userid of each element of users *)
}.

(** What [os.Stat], [os.Open], [io.ReadAll] and [json.Unmarshal] make of the
    group snapshot file, in the order [loadGroupState] meets them. *)
Inductive GroupFile : Type :=
| FileNotExist
| StatError (err : string)
| FileSizeZero
| OpenError (err : string)
| ReadError (err : string)
| ReadNothing
| UnmarshalError (partial : GroupState) (err : string)
| FileDecoded (content : GroupState).

(** ** [sort.Strings]

    Byte-wise lexicographic order; the sorted permutation of a list is
    unique, so any sorting algorithm gives the result of the library's. *)
Definition string_le (a b : string) : Prop := String.leb a b = true.

#[global] Instance string_le_dec : RelDecision string_le.
Proof. intros a b. unfold string_le. apply _. Defined.

Definition sortStrings : list string → list string := merge_sort string_le.

Definition nl : string := String (Ascii.ascii_of_nat 10) "".

Section Engines.

(** The two formatters of package [fmt] that the messages go through:
    [%d] on an [int] and [Duration.String] (used by [%s] and [%v]). *)
Variable fmtInt : Z → string.
Variable fmtDuration : Duration → string.

(** [sysLogger != nil] *)
Variable sysLogger : bool.

Definition apiError (code : Z) (message data : string) : string :=
  "ошибка API (" +:+ fmtInt code +:+ "): " +:+ message +:+ " - " +:+ data.

(** *** Shared helpers *)

Definition sendMattermostNotification (cfg : Config) (message : string) : list Event :=
  if decide (MattermostWebhook cfg = "") then []
  else [MattermostPost (MattermostWebhook cfg) message].

(** [if cfg.MattermostWebhook != "" { sendMattermostNotification(cfg, msg, logger) }] *)
Definition notifyIfWebhook (cfg : Config) (message : string) : list Event :=
  if decide (MattermostWebhook cfg ≠ "") then sendMattermostNotification cfg message
  else [].

Definition syslogWarning (line : string) : list Event :=
  if sysLogger then [SyslogWarning line] else [].
Definition syslogInfo (line : string) : list Event :=
  if sysLogger then [SyslogInfo line] else [].

(** *** Media remediation engine *)

Definition getMediaTypes (r : Reply (list MediaType)) : string + list MediaType :=
  match r with
  | TransportError err => inl err
  | MalformedBody err => inl err
  | Decoded result code message data =>
      if decide (code ≠ 0) then inl (apiError code message data)
      else inr result
  end.

(** The request is sent first; the returned value is the [error]
    ([None] is [nil]). *)
Definition enableMediaType (mediaTypeID : string) (r : Reply (list string))
  : list Event * option string :=
  ([MediatypeUpdate mediaTypeID],
   match r with
   | TransportError err => Some err
   | MalformedBody err => Some err
   | Decoded _ code message data =>
       if decide (code ≠ 0) then Some (apiError code message data) else None
   end).

Definition saveState (filename : string) (state : MediaState) (err : option string)
  : list Event := [WriteMediaState filename state err].

(** What the world answers inside one iteration of the loop over the media
    types: the reading of [time.Now()] behind [time.Since], and the reply to
    [mediatype.update].  At most one of each is consumed per iteration. *)
Record Answers := mkAnswers {
  clockNow : Time;
  enableReply : Reply (list string)
}.

(** Inputs of one call of [processMediaTypes]. *)
Record MediaCycle := mkMediaCycle {
  mediaReply : Reply (list MediaType);   (* reply to mediatype.get *)
  currentTime : Time;                    (* currentTime := time.Now() *)
  answers : nat → Answers;               (* per index of the loop *)
  stateWriteErr : option string          (* outcome of os.WriteFile *)
}.

Definition msgDetected (name : string) (remaining : Duration) : string :=
  "Обнаружено отключенное медиа: " +:+ name +:+ nl +:+
  "Будет автоматически включено через: " +:+ fmtDuration (Round remaining Minute).

Definition msgEnableFailed (name err : string) : string :=
  "Ошибка включения медиа: " +:+ name +:+ nl +:+ "Ошибка: " +:+ err.

Definition msgEnabled (name : string) : string :=
  "Медиа " +:+ name +:+ " было автоматически включено скриптом.".

Definition msgReminder (name : string) (disabledDuration remaining : Duration) : string :=
  "Медиа отключено: " +:+ name +:+ nl +:+
  "Отключено: " +:+ fmtDuration (Round disabledDuration Minute) +:+ " назад" +:+ nl +:+
  "Автоматическое включение через: " +:+ fmtDuration (Round remaining Minute).

Definition msgRestored (name : string) : string :=
  "Медиа восстановлено: " +:+ name.

Definition sysDetected (media : MediaType) : string :=
  "Обнаружено выключенное media: id=" +:+ MediaTypeID media +:+ " name=" +:+ Name media.

Definition sysOverdue (cfg : Config) (media : MediaType) (disabledDuration : Duration) : string :=
  "Media id=" +:+ MediaTypeID media +:+ " name=" +:+ Name media +:+ " отключено " +:+
  fmtDuration (Round disabledDuration Second) +:+ " — превышен порог " +:+
  fmtDuration (OffDuration cfg).

Definition sysEnabled (media : MediaType) : string :=
  "Скрипт включил media id=" +:+ MediaTypeID media +:+ " name=" +:+ Name media.

(** Body of [for _, media := range mediaTypes].  Returns the watch-state
    after the iteration, whether the iteration set [stateChanged], and the
    effects of the iteration.  ([foundDisabled] only selects a log line.) *)
Definition processMedia (cfg : Config) (currentTime : Time) (a : Answers)
    (media : MediaType) (state : MediaState) : MediaState * bool * list Event :=
  if decide (Status media = "1") then
    match state !! MediaTypeID media with
    | None =>
        (<[MediaTypeID media := currentTime]> state, true,
         syslogWarning (sysDetected media) ++
         (if decide (MattermostWebhook cfg ≠ "") then
            let remaining := int64 (OffDuration cfg - Since (clockNow a) currentTime) in
            sendMattermostNotification cfg (msgDetected (Name media) remaining)
          else []))
    | Some firstSeen =>
        let disabledDuration := Sub currentTime firstSeen in
        if OffDuration cfg <=? disabledDuration then
          let '(request, err) := enableMediaType (MediaTypeID media) (enableReply a) in
          match err with
          | Some err =>
              (state, false,
               syslogWarning (sysOverdue cfg media disabledDuration) ++ request ++
               notifyIfWebhook cfg (msgEnableFailed (Name media) err))
          | None =>
              (delete (MediaTypeID media) state, true,
               syslogWarning (sysOverdue cfg media disabledDuration) ++ request ++
               syslogInfo (sysEnabled media) ++
               notifyIfWebhook cfg (msgEnabled (Name media)))
          end
        else
          (state, false,
           if decide (MattermostWebhook cfg ≠ "") then
             if Minutes_ge_30 (Since (clockNow a) firstSeen) then
               let remaining := int64 (OffDuration cfg - disabledDuration) in
               sendMattermostNotification cfg
                 (msgReminder (Name media) disabledDuration remaining)
             else []
           else [])
    end
  else
    match state !! MediaTypeID media with
    | Some _ =>
        (delete (MediaTypeID media) state, true,
         notifyIfWebhook cfg (msgRestored (Name media)))
    | None => (state, false, [])
    end.

(** The loop, started at index [i]. *)
Fixpoint rangeMediaTypes (cfg : Config) (currentTime : Time) (ans : nat → Answers)
    (i : nat) (mediaTypes : list MediaType) (state : MediaState)
  : MediaState * bool * list Event :=
  match mediaTypes with
  | [] => (state, false, [])
  | media :: rest =>
      let '(state1, changed1, out1) := processMedia cfg currentTime (ans i) media state in
      let '(state2, changed2, out2) := rangeMediaTypes cfg currentTime ans (S i) rest state1 in
      (state2, changed1 || changed2, out1 ++ out2)
  end.

Definition processMediaTypes (cfg : Config) (c : MediaCycle) (state : MediaState)
  : MediaState * list Event :=
  match getMediaTypes (mediaReply c) with
  | inl _ => (state, [])
  | inr mediaTypes =>
      if decide (length mediaTypes = 0%nat) then (state, [])
      else
        let '(state', stateChanged, out) :=
          rangeMediaTypes cfg (currentTime c) (answers c) 0 mediaTypes state in
        (state', out ++ (if stateChanged
                         then saveState (StateFile cfg) state' (stateWriteErr c)
                         else []))
  end.

(** *** Group drift detector *)

Definition getUserGroups (r : Reply (list RawGroup)) : string + GroupState :=
  match r with
  | TransportError err => inl err
  | MalformedBody err => inl err
  | Decoded result code message data =>
      if decide (code ≠ 0) then inl (apiError code message data)
      else
        inr (foldl (λ (state : GroupState) g,
                      <[rawID g := mkUserGroup (rawID g) (rawName g)
                                     (sortStrings (rawUsers g))]> state)
                   ∅ result)
  end.

(** The loop of [stringSlicesEqual], entered with slices of equal length. *)
Fixpoint slicesAgree (a b : list string) : bool :=
  match a, b with
  | x :: a', y :: b' => if decide (x ≠ y) then false else slicesAgree a' b'
  | _, _ => true
  end.

Definition stringSlicesEqual (a b : list string) : bool :=
  if decide (length a ≠ length b) then false else slicesAgree a b.

Definition msgAdded (name : string) : string :=
  "Добавлена группа: " +:+ name +:+ " ".
Definition msgRenamed (old new : string) : string :=
  "Переименована группа " +:+ old +:+ " -> " +:+ new +:+ " ".
Definition msgMembers (name : string) : string :=
  "Изменён состав пользователей в группе " +:+ name +:+ " ".
Definition msgRemoved (name : string) : string :=
  "Удалена группа: " +:+ name +:+ " ".

(** Body of [for id, cur := range curr]. *)
Definition compareCurrent (prev : GroupState) (entry : string * UserGroup) : list string :=
  let '(id, cur) := entry in
  match prev !! id with
  | None => [msgAdded (GroupName cur)]
  | Some p =>
      (if decide (GroupName p ≠ GroupName cur)
       then [msgRenamed (GroupName p) (GroupName cur)] else []) ++
      (if stringSlicesEqual (Users p) (Users cur)
       then [] else [msgMembers (GroupName cur)])
  end.

(** Body of [for id, p := range prev]. *)
Definition comparePrevious (curr : GroupState) (entry : string * UserGroup) : list string :=
  let '(id, p) := entry in
  match curr !! id with
  | None => [msgRemoved (GroupName p)]
  | Some _ => []
  end.

(** [compareGroupStates] with the two iteration orders made explicit: Go
    leaves the order of [range] over a map unspecified, [orderCurr] and
    [orderPrev] are the orders the runtime happens to pick. *)
Definition compareGroupStatesIn (orderCurr orderPrev : list (string * UserGroup))
    (prev curr : GroupState) : list string :=
  (orderCurr ≫= compareCurrent prev) ++ (orderPrev ≫= comparePrevious curr).

(** One admissible run: both maps are ranged over in the order
    [map_to_list] enumerates them. *)
Definition compareGroupStates (prev curr : GroupState) : list string :=
  compareGroupStatesIn (map_to_list curr) (map_to_list prev) prev curr.

Definition saveGroupState (filename : string) (state : GroupState) (err : option string)
  : list Event := [WriteGroupState filename state err].

(** Inputs of one call of [processUserGroups]. *)
Record GroupCycle := mkGroupCycle {
  groupReply : Reply (list RawGroup);    (* reply to usergroup.get *)
  groupWriteErr : option string          (* outcome of os.WriteFile *)
}.

(** Body of [for _, c := range changes]. *)
Definition reportChange (cfg : Config) (c : string) : list Event :=
  syslogWarning ("UserGroup change detected: " +:+ c) ++
  notifyIfWebhook cfg ("Изменения в UserGroup: " +:+ c).

(** [for k := range prev { if _, ok := current[k]; !ok { delete(prev, k) } }] *)
Definition dropStale (current prev : GroupState) : GroupState :=
  map_fold (λ k _ (acc : GroupState),
              match current !! k with None => delete k acc | Some _ => acc end)
           prev prev.

(** [for k, v := range current { prev[k] = v }] *)
Definition copyInto (current prev : GroupState) : GroupState :=
  map_fold (λ k v (acc : GroupState), <[k := v]> acc) prev current.

(** [prev] is updated in place; the returned map is its content on return. *)
Definition processUserGroups (cfg : Config) (c : GroupCycle) (prev : GroupState)
    (baselineMode : bool) : GroupState * list Event :=
  match getUserGroups (groupReply c) with
  | inl _ => (prev, [])
  | inr current =>
      if baselineMode then
        (copyInto current prev,
         saveGroupState groupStateFilename current (groupWriteErr c))
      else
        let changes := compareGroupStates prev current in
        if decide (0 < length changes)%nat then
          (copyInto current (dropStale current prev),
           (changes ≫= reportChange cfg) ++
           saveGroupState groupStateFilename current (groupWriteErr c))
        else (prev, [])
  end.

(** *** Start-up and the poll loop of [main] *)

Definition loadGroupState (f : GroupFile) : GroupState * bool * option string :=
  match f with
  | FileNotExist => (∅, false, None)
  | StatError err => (∅, false, Some err)
  | FileSizeZero => (∅, true, None)
  | OpenError err => (∅, true, Some err)
  | ReadError err => (∅, true, Some err)
  | ReadNothing => (∅, true, None)
  | UnmarshalError partial err => (partial, true, Some err)
  | FileDecoded content => (content, true, None)
  end.

(** The variables [main] carries from one pass of the loop to the next. *)
Record Process := mkProcess {
  state : MediaState;
  groupState : GroupState;
  groupStateExisted : bool
}.

(** [main] up to the loop; [state0] is what [loadState] left in [state]. *)
Definition startup (state0 : MediaState) (f : GroupFile) : Process :=
  let '(groupState, groupStateExisted, err) := loadGroupState f in
  match err with
  | Some _ => mkProcess state0 ∅ false
  | None => mkProcess state0 groupState groupStateExisted
  end.

Record Cycle := mkCycle {
  mediaCycle : MediaCycle;
  groupCycle : GroupCycle
}.

(** One pass of [for { ... }], up to the sleep. *)
Definition pass (cfg : Config) (c : Cycle) (p : Process) : Process * list Event :=
  let '(state', out1) := processMediaTypes cfg (mediaCycle c) (state p) in
  let baselineMode := negb (groupStateExisted p) in
  let '(groupState', out2) :=
    processUserGroups cfg (groupCycle c) (groupState p) baselineMode in
  (mkProcess state' groupState'
     (if baselineMode then true else groupStateExisted p),
   out1 ++ out2).

(** The first [length cycles] passes of the loop: the variables after the
    last of them and the effects of each pass. *)
Fixpoint mainLoop (cfg : Config) (cycles : list Cycle) (p : Process)
  : Process * list (list Event) :=
  match cycles with
  | [] => (p, [])
  | c :: rest =>
      let '(p1, out) := pass cfg c p in
      let '(p', outs) := mainLoop cfg rest p1 in
      (p', out :: outs)
  end.

(** The media engine alone over successive passes. *)
Fixpoint mediaRuns (cfg : Config) (cycles : list MediaCycle) (state : MediaState)
  : MediaState * list (list Event) :=
  match cycles with
  | [] => (state, [])
  | c :: rest =>
      let '(state1, out) := processMediaTypes cfg c state in
      let '(state', outs) := mediaRuns cfg rest state1 in
      (state', out :: outs)
  end.

End Engines.

(** ** Configuration: [loadConfig] *)

Definition comma : Ascii.ascii := Ascii.ascii_of_nat 44.
Definition slash : Ascii.ascii := Ascii.ascii_of_nat 47.

(** [strings.Split(s, ",")] *)
Fixpoint splitComma (s : string) : list string :=
  match s with
  | EmptyString => [EmptyString]
  | String a rest =>
      if Ascii.eqb a comma then EmptyString :: splitComma rest
      else
        match splitComma rest with
        | part :: parts => String a part :: parts
        | [] => [String a EmptyString]
        end
  end.

(** [strings.TrimRight(s, "/")]: the trailing "/" bytes are cut off. *)
Fixpoint trimRightSlash (s : string) : string :=
  match s with
  | EmptyString => EmptyString
  | String a rest =>
      match trimRightSlash rest with
      | EmptyString => if Ascii.eqb a slash then EmptyString else String a EmptyString
      | kept => String a kept
      end
  end.

Section LoadConfig.

(** [strconv.Atoi]: the text of the error or the value; [strings.TrimSpace]. *)
Variable Atoi : string → string + Z.
Variable TrimSpace : string → string.

(** [Getenv] is [os.Getenv] once [godotenv.Load] has run: the value of the
    variable, empty when it is not set. *)
Definition loadConfig (Getenv : string → string) : string + Config :=
  match Atoi (Getenv "MEDIA_CHECK_INTERVAL") with
  | inl err => inl ("неверный формат MEDIA_CHECK_INTERVAL: " +:+ err)
  | inr checkInterval =>
      match Atoi (Getenv "MEDIA_OFF_DURATION") with
      | inl err => inl ("неверный формат MEDIA_OFF_DURATION: " +:+ err)
      | inr offDuration =>
          let mediaNames :=
            let s := TrimSpace (Getenv "MEDIA_NAMES") in
            if decide (s ≠ "") then TrimSpace <$> splitComma s else [] in
          inr (mkConfig (trimRightSlash (Getenv "ZABBIX_API_URL"))
                 (Getenv "ZABBIX_API_TOKEN")
                 (int64 (checkInterval * Minute))
                 (int64 (offDuration * Minute))
                 mediaNames
                 "media_state.json"
                 (TrimSpace (Getenv "MM_WEBHOOK_URL")))
      end
  end.

End LoadConfig.

(** The address the three JSON-RPC calls are posted to. *)
Definition apiEndpoint (cfg : Config) : string :=
  ZabbixAPIURL cfg +:+ "/api_jsonrpc.php".

Fixpoint slashes (k : nat) : string :=
  match k with O => EmptyString | S k' => String slash (slashes k') end.

(** ** The watch-state file: [loadState] *)

(** What [os.Open], [io.ReadAll] and [json.Unmarshal] make of the state
    file, in the order [loadState] meets them. *)
Inductive StateFileOutcome : Type :=
| StateFileNotExist
| StateOpenError (err : string)
| StateReadError (err : string)
| StateReadNothing
| StateUnmarshalError (partial : MediaState) (err : string)
| StateDecoded (content : MediaState).

(** The [nil] map returned beside an open error is modelled as the empty
    map; [main] does not read it. *)
Definition loadState (f : StateFileOutcome) : MediaState * option string :=
  match f with
  | StateFileNotExist => (∅, None)
  | StateOpenError err => (∅, Some err)
  | StateReadError err => (∅, Some err)
  | StateReadNothing => (∅, None)
  | StateUnmarshalError partial err => (partial, Some err)
  | StateDecoded content => (content, None)
  end.

(** [state] as [main] holds it when the loop starts. *)
Definition initialState (f : StateFileOutcome) : MediaState :=
  let '(state, err) := loadState f in
  match err with
  | Some _ => ∅
  | None => state
  end.

(** ** Observations on runs *)

(** The configuration with another webhook address, everything else kept. *)
Definition withWebhook (cfg : Config) (webhook : string) : Config :=
  mkConfig (ZabbixAPIURL cfg) (APIToken cfg) (CheckInterval cfg) (OffDuration cfg)
    (MediaNames cfg) (StateFile cfg) webhook.

Definition isMattermostPost (e : Event) : bool :=
  match e with MattermostPost _ _ => true | _ => false end.

(** The effects other than webhook posts: remote updates, syslog lines and
    file writes, in order. *)
Definition withoutPosts (out : list Event) : list Event :=
  filter (λ e, isMattermostPost e = false) out.

Definition isUpdateOf (id : string) (e : Event) : bool :=
  match e with MediatypeUpdate id' => bool_decide (id' = id) | _ => false end.

(** How many times [mediatype.update] was requested for [id]. *)
Definition updatesOf (id : string) (out : list Event) : nat :=
  length (filter (λ e, isUpdateOf id e = true) out).

(** The fetched list [l] has the media type [media] at index [i] and no other
    element with its id. *)
Definition listedOnce (l : list MediaType) (i : nat) (media : MediaType) : Prop :=
  l !! i = Some media ∧
  ∀ j m, l !! j = Some m → MediaTypeID m = MediaTypeID media → j = i.

(** The entry of [m] in [s] is what a pass at [now] leaves behind when no
    remediation is due: tracked for less than [bound] if [m] is disabled, not
    tracked otherwise. *)
Definition settled (now : Time) (bound : Duration) (s : MediaState) (m : MediaType)
  : Prop :=
  if decide (Status m = "1")
  then ∃ firstSeen, s !! MediaTypeID m = Some firstSeen ∧ Sub now firstSeen < bound
  else s !! MediaTypeID m = None.

(** ** The group diff as the specification words it

    Four kinds of change, each collected on its own by group id, each with
    the text of its description.  The members of two groups are compared
    with the order set aside; a user id listed twice counts twice. *)

(** The same user ids, each as many times, in any order. *)
Definition sameMembers (p cur : UserGroup) : Prop := Users p ≡ₚ Users cur.

#[global] Instance sameMembers_dec : RelDecision sameMembers.
Proof. intros p cur. unfold sameMembers. apply _. Defined.

(** The members of a group as a set of user ids. *)
Definition memberSet (g : UserGroup) : gset string := list_to_set (Users g).

(** "id present in current, absent in prior" *)
Definition addedChanges (prev curr : GroupState) : list string :=
  omap (λ '(id, cur),
          match prev !! id with
          | None => Some ("Добавлена группа: " +:+ GroupName cur +:+ " ")
          | Some _ => None
          end) (map_to_list curr).

(** "id present in both, name differs" *)
Definition renamedChanges (prev curr : GroupState) : list string :=
  omap (λ '(id, cur),
          p ← prev !! id;
          if decide (GroupName p = GroupName cur) then None
          else Some ("Переименована группа " +:+ GroupName p +:+ " -> " +:+
                     GroupName cur +:+ " "))
       (map_to_list curr).

(** "id present in both, members differ" *)
Definition membershipChanges (prev curr : GroupState) : list string :=
  omap (λ '(id, cur),
          p ← prev !! id;
          if decide (sameMembers p cur) then None
          else Some ("Изменён состав пользователей в группе " +:+ GroupName cur +:+ " "))
       (map_to_list curr).

(** "id present in both, member sets differ" *)
Definition membershipChangesAsSets (prev curr : GroupState) : list string :=
  omap (λ '(id, cur),
          p ← prev !! id;
          if decide (memberSet p = memberSet cur) then None
          else Some ("Изменён состав пользователей в группе " +:+ GroupName cur +:+ " "))
       (map_to_list curr).

(** "id present in prior, absent in current" *)
Definition removedChanges (prev curr : GroupState) : list string :=
  omap (λ '(id, p),
          match curr !! id with
          | None => Some ("Удалена группа: " +:+ GroupName p +:+ " ")
          | Some _ => None
          end) (map_to_list prev).

(** Every group of the state holds its members sorted, as [getUserGroups]
    stores them. *)
Definition storedSorted (gs : GroupState) : Prop :=
  map_Forall (λ _ g, Sorted string_le (Users g)) gs.

(** No group of the state lists a user id twice. *)
Definition membersOnce (gs : GroupState) : Prop :=
  map_Forall (λ _ g, NoDup (Users g)) gs.

(** Every group of the state sits under its own id, as in the states
    [getUserGroups] builds and [saveGroupState] writes. *)
Definition keyedByID (gs : GroupState) : Prop :=
  map_Forall (λ id g, ID g = id) gs.

(** The synthetic pair: one group added, one removed, one renamed, one with
    a member replaced. *)
Definition synthPrev : GroupState :=
  list_to_map [("1", mkUserGroup "1" "Gone" ["10"]);
               ("2", mkUserGroup "2" "Old" ["10"; "11"]);
               ("5", mkUserGroup "5" "Admins" ["1"; "2"])].

Definition synthCurr : GroupState :=
  list_to_map [("2", mkUserGroup "2" "Renamed" ["10"; "11"]);
               ("5", mkUserGroup "5" "Admins" ["1"; "3"]);
               ("9", mkUserGroup "9" "New" [])].

(** One group whose reply lists user "1" once, and the same group when the
    reply lists that user twice. *)
Definition adminsOnce : GroupState :=
  list_to_map [("5", mkUserGroup "5" "Admins" ["1"])].

Definition adminsTwice : GroupState :=
  list_to_map [("5", mkUserGroup "5" "Admins" ["1"; "1"])].

(** ** Worked examples

    Concrete runs, after the examples of the specification: the media type
    "7" / "Email" with a threshold of 60 minutes, first seen disabled at
    instant 0. *)

(** [%d] *)
Definition showInt (z : Z) : string := NilZero.string_of_int (Z.to_int z).

(** [Duration.String] on non-negative whole minutes ("31m0s", "1h1m0s"). *)
Definition showWholeMinutes (d : Duration) : string :=
  if d =? 0 then "0s"
  else
    let m := d / Minute in
    (if 0 <? m / 60 then showInt (m / 60) +:+ "h" else "") +:+
    showInt (m mod 60) +:+ "m0s".

Definition exCfg : Config :=
  mkConfig "http://zabbix.example" "token" (5 * Minute) (60 * Minute)
    ["Email"; "SMS"] "media_state.json" "http://mattermost.example/hooks/abc".

Definition email : MediaType := mkMediaType "7" "Email" "1".
Definition sms : MediaType := mkMediaType "8" "SMS" "0".

(** The remote enable succeeds / the server cannot be reached. *)
Definition enableOk : Reply (list string) := Decoded ["7"] 0 "" "".
Definition enableDown : Reply (list string) := TransportError "connection refused".

(** A pass at [minutes] past instant 0 that fetches [l]; the clock does not
    move during the pass and every remote enable is answered by [r]. *)
Definition cycleAt (minutes : Z) (l : list MediaType) (r : Reply (list string))
  : MediaCycle :=
  mkMediaCycle (Decoded l 0 "" "") (minutes * Minute)
    (λ _, mkAnswers (minutes * Minute) r) None.

(** A pass at [minutes] whose fetch is refused by the server. *)
Definition cycleRefused (minutes : Z) : MediaCycle :=
  mkMediaCycle (Decoded [] (-32602) "Invalid params." "Not authorized.")
    (minutes * Minute) (λ _, mkAnswers (minutes * Minute) enableOk) None.


(** Tracked since instant 0. *)
Definition emailTracked : MediaState := {["7" := 0]}.

Definition admins : RawGroup := mkRawGroup "5" "Admins" ["2"; "1"].

Definition groupsDown : GroupCycle := mkGroupCycle (TransportError "connection refused") None.
Definition groupsSeen : GroupCycle := mkGroupCycle (Decoded [admins] 0 "" "") None.

(** What usergroup.get returns when the groups are those of [synthCurr]. *)
Definition synthSeen : GroupCycle :=
  mkGroupCycle
    (Decoded [mkRawGroup "9" "New" [];
              mkRawGroup "5" "Admins" ["3"; "1"];
              mkRawGroup "2" "Renamed" ["11"; "10"]] 0 "" "")
    None.

(** [admins] as [getUserGroups] stores it. *)
Definition adminsStored : GroupState :=
  list_to_map [("5", mkUserGroup "5" "Admins" ["1"; "2"])].

(** ** Further observations *)

Definition isStateWrite (e : Event) : bool :=
  match e with WriteMediaState _ _ _ => true | _ => false end.

Definition isUpdate (e : Event) : bool :=
  match e with MediatypeUpdate _ => true | _ => false end.

(** How many times [mediatype.update] was requested, for any id. *)
Definition updateCount (out : list Event) : nat :=
  length (filter (λ e, isUpdate e = true) out).

(** The webhook posts among the effects, in order. *)
Definition postsOf (out : list Event) : list Event :=
  filter (λ e, isMattermostPost e = true) out.

(** A group of the reply as [getUserGroups] stores it. *)
Definition storedGroup (rg : RawGroup) : UserGroup :=
  mkUserGroup (rawID rg) (rawName rg) (sortStrings (rawUsers rg)).

(** The groups fetched by the last pass, among [cycles], whose usergroup.get
    succeeded. *)
Fixpoint lastObservation (fmtInt : Z → string) (cycles : list Cycle)
  : option GroupState :=
  match cycles with
  | [] => None
  | c :: rest =>
      match lastObservation fmtInt rest with
      | Some gs => Some gs
      | None =>
          match getUserGroups fmtInt (groupReply (groupCycle c)) with
          | inr gs => Some gs
          | inl _ => None
          end
      end
  end.

(** What [main] relies on between passes: the prior is keyed by id, and
    while no pass has run in a process without snapshot it is empty. *)
Definition priorInvariant (p : Process) : Prop :=
  keyedByID (groupState p) ∧ (groupStateExisted p = false → groupState p = ∅).

Definition isDurable (e : Event) : bool :=
  match e with
  | MediatypeUpdate _ | WriteMediaState _ _ _ | WriteGroupState _ _ _ => true
  | _ => false
  end.

(** The effects that change something: remote updates and file writes, in
    order.  What is left out are the syslog lines and the webhook posts. *)
Definition durableEffects (out : list Event) : list Event :=
  filter (λ e, isDurable e = true) out.

(** The configuration of the examples with a threshold of zero. *)
Definition exCfgZero : Config :=
  mkConfig "http://zabbix.example" "token" (5 * Minute) 0
    ["Email"; "SMS"] "media_state.json" "http://mattermost.example/hooks/abc".

Definition emailRestored : MediaType := mkMediaType "7" "Email" "0".

(** An environment, with stand-ins for [strconv.Atoi] and
    [strings.TrimSpace] that are right on the values it holds. *)
Definition exEnv (name : string) : string :=
  if decide (name = "MEDIA_CHECK_INTERVAL") then "5"
  else if decide (name = "MEDIA_OFF_DURATION") then "60"
  else if decide (name = "MEDIA_NAMES") then "Email,SMS"
  else if decide (name = "ZABBIX_API_URL") then "http://zabbix.example//"
  else "".

Definition exAtoi (s : string) : string + Z :=
  if decide (s = "5") then inr 5
  else if decide (s = "60") then inr 60
  else inl "invalid syntax".

Definition exTrimSpace (s : string) : string := s.

(** * Properties *)

Section Properties.

Variable fmtInt : Z → string.
Variable fmtDuration : Duration → string.
Variable sysLogger : bool.

Local Abbreviation step := (processMedia fmtInt fmtDuration sysLogger).
Local Abbreviation range := (rangeMediaTypes fmtInt fmtDuration sysLogger).
Local Abbreviation cycle := (processMediaTypes fmtInt fmtDuration sysLogger).
Local Abbreviation runs := (mediaRuns fmtInt fmtDuration sysLogger).
Local Abbreviation enable := (enableMediaType fmtInt).
Local Abbreviation fetch := (getMediaTypes fmtInt).

(** ** Saturating subtraction *)

Lemma Sub_self t : Sub t t = 0.
Proof. unfold Sub, minDuration, maxDuration. rewrite Z.sub_diag. reflexivity. Qed.

Lemma Sub_mono t t' u : t ≤ t' → Sub t u ≤ Sub t' u.
Proof.
  intros Hle. unfold Sub, minDuration, maxDuration.
  repeat match goal with |- context [Z.ltb ?a ?b] => destruct (Z.ltb_spec a b) end; lia.
Qed.

Lemma Sub_below t u d : u ≤ t → t < u + d → Sub t u < d.
Proof.
  intros Hut Hlt. unfold Sub, minDuration, maxDuration.
  repeat match goal with |- context [Z.ltb ?a ?b] => destruct (Z.ltb_spec a b) end; lia.
Qed.

Lemma Sub_reaches t u d : d ≤ maxDuration → u + d ≤ t → d ≤ Sub t u.
Proof.
  unfold Sub, minDuration, maxDuration. intros Hd Hle.
  repeat match goal with |- context [Z.ltb ?a ?b] => destruct (Z.ltb_spec a b) end; lia.
Qed.

(** ** The six branches of the loop body *)

Lemma step_detect cfg now a media st :
  Status media = "1" → st !! MediaTypeID media = None →
  step cfg now a media st =
    (<[MediaTypeID media := now]> st, true,
     syslogWarning sysLogger (sysDetected media) ++
     notifyIfWebhook cfg
       (msgDetected fmtDuration (Name media)
          (int64 (OffDuration cfg - Since (clockNow a) now)))).
Proof.
  intros Hs Hl. unfold processMedia, notifyIfWebhook.
  rewrite decide_True by done. rewrite Hl. by case_decide.
Qed.

Lemma step_enable_failed cfg now a media st firstSeen err :
  Status media = "1" → st !! MediaTypeID media = Some firstSeen →
  OffDuration cfg ≤ Sub now firstSeen →
  (enable (MediaTypeID media) (enableReply a)).2 = Some err →
  step cfg now a media st =
    (st, false,
     syslogWarning sysLogger (sysOverdue fmtDuration cfg media (Sub now firstSeen)) ++
     [MediatypeUpdate (MediaTypeID media)] ++
     notifyIfWebhook cfg (msgEnableFailed (Name media) err)).
Proof.
  intros Hs Hl Hdue Herr. unfold processMedia.
  rewrite decide_True by done. rewrite Hl.
  destruct (Z.leb_spec (OffDuration cfg) (Sub now firstSeen)); [|lia].
  destruct (enable _ _) as [request e] eqn:He.
  unfold enableMediaType in He. injection He as <- <-.
  simpl in Herr. by rewrite Herr.
Qed.

Lemma step_enable_ok cfg now a media st firstSeen :
  Status media = "1" → st !! MediaTypeID media = Some firstSeen →
  OffDuration cfg ≤ Sub now firstSeen →
  (enable (MediaTypeID media) (enableReply a)).2 = None →
  step cfg now a media st =
    (delete (MediaTypeID media) st, true,
     syslogWarning sysLogger (sysOverdue fmtDuration cfg media (Sub now firstSeen)) ++
     [MediatypeUpdate (MediaTypeID media)] ++
     syslogInfo sysLogger (sysEnabled media) ++
     notifyIfWebhook cfg (msgEnabled (Name media))).
Proof.
  intros Hs Hl Hdue Herr. unfold processMedia.
  rewrite decide_True by done. rewrite Hl.
  destruct (Z.leb_spec (OffDuration cfg) (Sub now firstSeen)); [|lia].
  destruct (enable _ _) as [request e] eqn:He.
  unfold enableMediaType in He. injection He as <- <-.
  simpl in Herr. by rewrite Herr.
Qed.

Lemma step_waiting cfg now a media st firstSeen :
  Status media = "1" → st !! MediaTypeID media = Some firstSeen →
  Sub now firstSeen < OffDuration cfg →
  step cfg now a media st =
    (st, false,
     if Minutes_ge_30 (Since (clockNow a) firstSeen) then
       notifyIfWebhook cfg
         (msgReminder fmtDuration (Name media) (Sub now firstSeen)
            (int64 (OffDuration cfg - Sub now firstSeen)))
     else []).
Proof.
  intros Hs Hl Hdue. unfold processMedia, notifyIfWebhook.
  rewrite decide_True by done. rewrite Hl.
  destruct (Z.leb_spec (OffDuration cfg) (Sub now firstSeen)); [lia|].
  case_decide; [done|]. by destruct (Minutes_ge_30 _).
Qed.

Lemma step_restored cfg now a media st firstSeen :
  Status media ≠ "1" → st !! MediaTypeID media = Some firstSeen →
  step cfg now a media st =
    (delete (MediaTypeID media) st, true,
     notifyIfWebhook cfg (msgRestored (Name media))).
Proof.
  intros Hs Hl. unfold processMedia. rewrite decide_False by done. by rewrite Hl.
Qed.

Lemma step_healthy cfg now a media st :
  Status media ≠ "1" → st !! MediaTypeID media = None →
  step cfg now a media st = (st, false, []).
Proof.
  intros Hs Hl. unfold processMedia. rewrite decide_False by done. by rewrite Hl.
Qed.

(** Case analysis along the branches: rewrites [step cfg now a media st]
    with the matching equation in each of the six cases. *)
Ltac step_branches cfg now a media st :=
  let Hs := fresh "Hstatus" in
  let Hl := fresh "Hentry" in
  let Hd := fresh "Hdue" in
  let He := fresh "Henable" in
  destruct (decide (Status media = "1")) as [Hs|Hs];
  destruct (st !! MediaTypeID media) as [?firstSeen|] eqn:Hl;
  [ destruct (Z.le_gt_cases (OffDuration cfg) (Sub now firstSeen)) as [Hd|Hd];
    [ destruct ((enable (MediaTypeID media) (enableReply a)).2) as [?err|] eqn:He;
      [ rewrite (step_enable_failed cfg now a media st _ _ Hs Hl Hd He)
      | rewrite (step_enable_ok cfg now a media st _ Hs Hl Hd He) ]
    | rewrite (step_waiting cfg now a media st _ Hs Hl Hd) ]
  | rewrite (step_detect cfg now a media st Hs Hl)
  | rewrite (step_restored cfg now a media st _ Hs Hl)
  | rewrite (step_healthy cfg now a media st Hs Hl) ].

(** An iteration reads and writes the entry of its own media type only. *)
Lemma step_frame cfg now a media st id :
  MediaTypeID media ≠ id →
  (step cfg now a media st).1.1 !! id = st !! id.
Proof.
  intros Hne. step_branches cfg now a media st; simpl;
    by rewrite ?lookup_insert_ne, ?lookup_delete_ne.
Qed.

(** An iteration that leaves [stateChanged] alone leaves the state alone. *)
Lemma step_unchanged cfg now a media st :
  (step cfg now a media st).1.2 = false → (step cfg now a media st).1.1 = st.
Proof. step_branches cfg now a media st; simpl; done. Qed.

Lemma notifyIfWebhook_posts cfg msg e :
  e ∈ notifyIfWebhook cfg msg → e = MattermostPost (MattermostWebhook cfg) msg.
Proof.
  unfold notifyIfWebhook, sendMattermostNotification.
  repeat case_decide; rewrite ?elem_of_nil, ?list_elem_of_singleton; done.
Qed.

Lemma notifyIfWebhook_configured cfg msg :
  MattermostWebhook cfg ≠ "" →
  notifyIfWebhook cfg msg = [MattermostPost (MattermostWebhook cfg) msg].
Proof.
  intros Hw. unfold notifyIfWebhook, sendMattermostNotification.
  by rewrite decide_True, decide_False.
Qed.

Lemma syslogWarning_no_update line id : MediatypeUpdate id ∉ syslogWarning sysLogger line.
Proof.
  unfold syslogWarning. destruct sysLogger; [|apply not_elem_of_nil].
  by intros ?%list_elem_of_singleton.
Qed.

Lemma syslogInfo_no_update line id : MediatypeUpdate id ∉ syslogInfo sysLogger line.
Proof.
  unfold syslogInfo. destruct sysLogger; [|apply not_elem_of_nil].
  by intros ?%list_elem_of_singleton.
Qed.

Lemma notifyIfWebhook_no_update cfg msg id : MediatypeUpdate id ∉ notifyIfWebhook cfg msg.
Proof. intros H. by apply notifyIfWebhook_posts in H. Qed.

(** The only remote update an iteration can send is for its own media type,
    and only when that one is disabled, tracked and overdue. *)
Lemma step_update cfg now a media st id :
  MediatypeUpdate id ∈ (step cfg now a media st).2 →
  id = MediaTypeID media ∧ Status media = "1" ∧
  ∃ firstSeen, st !! id = Some firstSeen ∧ OffDuration cfg ≤ Sub now firstSeen.
Proof.
  step_branches cfg now a media st; simpl; intros H;
    try destruct (Minutes_ge_30 _);
    repeat first [apply elem_of_app in H as [H|H] | apply elem_of_cons in H as [H|H]];
    try (by apply syslogWarning_no_update in H);
    try (by apply syslogInfo_no_update in H);
    try (by apply notifyIfWebhook_no_update in H);
    try (by apply elem_of_nil in H);
    injection H as ->; eauto.
Qed.

(** ** The loop over the fetched list *)

Lemma range_cons cfg now ans i media rest st :
  range cfg now ans i (media :: rest) st =
    let r1 := step cfg now (ans i) media st in
    let r2 := range cfg now ans (S i) rest r1.1.1 in
    (r2.1.1, r1.1.2 || r2.1.2, r1.2 ++ r2.2).
Proof.
  simpl. destruct (step _ _ _ _ _) as [[s1 c1] o1].
  simpl. by destruct (range _ _ _ _ _ _) as [[s2 c2] o2].
Qed.

Lemma range_app cfg now ans i l1 l2 st :
  range cfg now ans i (l1 ++ l2) st =
    let r1 := range cfg now ans i l1 st in
    let r2 := range cfg now ans (i + length l1) l2 r1.1.1 in
    (r2.1.1, r1.1.2 || r2.1.2, r1.2 ++ r2.2).
Proof.
  revert i st. induction l1 as [|m l1 IH]; intros i st.
  - simpl. rewrite Nat.add_0_r. by destruct (range _ _ _ _ l2 _) as [[s2 c2] o2].
  - rewrite <- app_comm_cons, !range_cons. cbv zeta. rewrite IH. cbv zeta. simpl.
    rewrite <- Nat.add_succ_comm, orb_assoc, app_assoc. done.
Qed.

Lemma range_frame cfg now ans i l st id :
  (∀ m, m ∈ l → MediaTypeID m ≠ id) →
  (range cfg now ans i l st).1.1 !! id = st !! id.
Proof.
  revert i st. induction l as [|m l IH]; intros i st Habs; [done|].
  rewrite range_cons. cbv zeta. simpl.
  rewrite IH by (intros; apply Habs; by right).
  apply step_frame, Habs. by left.
Qed.

Lemma range_update cfg now ans i l st id :
  MediatypeUpdate id ∈ (range cfg now ans i l st).2 →
  ∃ m, m ∈ l ∧ MediaTypeID m = id.
Proof.
  revert i st. induction l as [|m l IH]; intros i st; [by rewrite elem_of_nil|].
  rewrite range_cons. cbv zeta. simpl. rewrite elem_of_app. intros [H|H].
  - apply step_update in H as [-> _]. exists m. split; [by left|done].
  - apply IH in H as (m' & ? & ?). exists m'. split; [by right|done].
Qed.

Lemma range_unchanged cfg now ans i l st :
  (range cfg now ans i l st).1.2 = false → (range cfg now ans i l st).1.1 = st.
Proof.
  revert i st. induction l as [|m l IH]; intros i st; [done|].
  rewrite range_cons. cbv zeta. simpl. intros [H1 H2]%orb_false_elim.
  rewrite IH by done. by apply step_unchanged.
Qed.

(** ** One call of [processMediaTypes] *)

Lemma cycle_fetch_failed cfg c st err :
  fetch (mediaReply c) = inl err → cycle cfg c st = (st, []).
Proof. intros H. unfold processMediaTypes. by rewrite H. Qed.

Lemma cycle_fetched_nothing cfg c st :
  fetch (mediaReply c) = inr [] → cycle cfg c st = (st, []).
Proof. intros H. unfold processMediaTypes. by rewrite H. Qed.

Lemma cycle_fetched cfg c st l :
  fetch (mediaReply c) = inr l → l ≠ [] →
  cycle cfg c st =
    let r := range cfg (currentTime c) (answers c) 0 l st in
    (r.1.1, r.2 ++ (if r.1.2 then saveState (StateFile cfg) r.1.1 (stateWriteErr c)
                    else [])).
Proof.
  intros H Hne. unfold processMediaTypes. rewrite H.
  rewrite decide_False by (by destruct l).
  by destruct (range _ _ _ _ _ _) as [[s ch] o].
Qed.

Lemma cycle_frame cfg c st id :
  (∀ l m, fetch (mediaReply c) = inr l → m ∈ l → MediaTypeID m ≠ id) →
  (cycle cfg c st).1 !! id = st !! id.
Proof.
  intros Habs. destruct (fetch (mediaReply c)) as [err|l] eqn:Hf.
  - by rewrite (cycle_fetch_failed _ _ _ _ Hf).
  - destruct (decide (l = [])) as [->|Hl]; [by rewrite (cycle_fetched_nothing _ _ _ Hf)|].
    rewrite (cycle_fetched _ _ _ _ Hf) by done. cbv zeta. simpl.
    apply range_frame. intros m Hm. by eapply Habs.
Qed.

Lemma cycle_update cfg c st id :
  MediatypeUpdate id ∈ (cycle cfg c st).2 →
  ∃ l m, fetch (mediaReply c) = inr l ∧ m ∈ l ∧ MediaTypeID m = id.
Proof.
  destruct (fetch (mediaReply c)) as [err|l] eqn:Hf.
  - rewrite (cycle_fetch_failed _ _ _ _ Hf). by rewrite elem_of_nil.
  - destruct (decide (l = [])) as [->|Hl].
    { rewrite (cycle_fetched_nothing _ _ _ Hf). by rewrite elem_of_nil. }
    rewrite (cycle_fetched _ _ _ _ Hf) by done. cbv zeta. simpl.
    rewrite elem_of_app. intros [H|H].
    + apply range_update in H as (m & ? & ?). by exists l, m.
    + destruct (_.1.2); [|by apply elem_of_nil in H].
      unfold saveState in H. by apply list_elem_of_singleton in H.
Qed.

Lemma runs_cons cfg c rest st :
  runs cfg (c :: rest) st =
    let r1 := cycle cfg c st in
    let r2 := runs cfg rest r1.1 in
    (r2.1, r1.2 :: r2.2).
Proof.
  simpl. destruct (cycle _ _ _) as [s1 o1]. simpl.
  by destruct (runs _ _ _) as [s2 o2].
Qed.

(** ** Webhook posts are the only thing the webhook setting changes *)

Lemma withoutPosts_app out1 out2 :
  withoutPosts (out1 ++ out2) = withoutPosts out1 ++ withoutPosts out2.
Proof. apply filter_app. Qed.

Lemma withoutPosts_notify cfg msg : withoutPosts (notifyIfWebhook cfg msg) = [].
Proof.
  unfold notifyIfWebhook, sendMattermostNotification. by repeat case_decide.
Qed.

Lemma step_webhook_blind cfg w now a media st :
  (step (withWebhook cfg w) now a media st).1 = (step cfg now a media st).1 ∧
  withoutPosts (step (withWebhook cfg w) now a media st).2 =
    withoutPosts (step cfg now a media st).2.
Proof.
  destruct (decide (Status media = "1")) as [Hs|Hs];
    destruct (st !! MediaTypeID media) as [firstSeen|] eqn:Hl.
  - destruct (Z.le_gt_cases (OffDuration cfg) (Sub now firstSeen)) as [Hd|Hd].
    + destruct ((enable (MediaTypeID media) (enableReply a)).2) as [err|] eqn:He.
      * rewrite (step_enable_failed cfg _ _ _ _ _ _ Hs Hl Hd He).
        rewrite (step_enable_failed (withWebhook cfg w) _ _ _ _ _ _ Hs Hl Hd He).
        split; [done|]. cbn [snd]. by rewrite !withoutPosts_app, !withoutPosts_notify.
      * rewrite (step_enable_ok cfg _ _ _ _ _ Hs Hl Hd He).
        rewrite (step_enable_ok (withWebhook cfg w) _ _ _ _ _ Hs Hl Hd He).
        split; [done|]. cbn [snd]. by rewrite !withoutPosts_app, !withoutPosts_notify.
    + rewrite (step_waiting cfg _ _ _ _ _ Hs Hl Hd).
      rewrite (step_waiting (withWebhook cfg w) _ _ _ _ _ Hs Hl Hd).
      split; [done|]. cbn [snd]. destruct (Minutes_ge_30 _); [|done].
      by rewrite !withoutPosts_notify.
  - rewrite (step_detect cfg _ _ _ _ Hs Hl).
    rewrite (step_detect (withWebhook cfg w) _ _ _ _ Hs Hl).
    split; [done|]. cbn [snd]. by rewrite !withoutPosts_app, !withoutPosts_notify.
  - rewrite (step_restored cfg _ _ _ _ _ Hs Hl).
    rewrite (step_restored (withWebhook cfg w) _ _ _ _ _ Hs Hl).
    split; [done|]. cbn [snd]. by rewrite !withoutPosts_notify.
  - rewrite (step_healthy cfg _ _ _ _ Hs Hl).
    by rewrite (step_healthy (withWebhook cfg w) _ _ _ _ Hs Hl).
Qed.

Lemma range_webhook_blind cfg w now ans i l st :
  (range (withWebhook cfg w) now ans i l st).1 = (range cfg now ans i l st).1 ∧
  withoutPosts (range (withWebhook cfg w) now ans i l st).2 =
    withoutPosts (range cfg now ans i l st).2.
Proof.
  revert i st. induction l as [|m l IH]; intros i st; [done|].
  rewrite !range_cons. cbv zeta.
  destruct (step_webhook_blind cfg w now (ans i) m st) as [E1 E2].
  rewrite E1. destruct (IH (S i) (step cfg now (ans i) m st).1.1) as [E3 E4].
  rewrite E3. split; [done|]. simpl. by rewrite !withoutPosts_app, E2, E4.
Qed.

Lemma cycle_webhook_blind cfg w c st :
  (cycle (withWebhook cfg w) c st).1 = (cycle cfg c st).1 ∧
  withoutPosts (cycle (withWebhook cfg w) c st).2 = withoutPosts (cycle cfg c st).2.
Proof.
  destruct (fetch (mediaReply c)) as [err|l] eqn:Hf.
  - by rewrite !(cycle_fetch_failed _ _ _ _ Hf).
  - destruct (decide (l = [])) as [->|Hl]; [by rewrite !(cycle_fetched_nothing _ _ _ Hf)|].
    rewrite !(cycle_fetched _ _ _ _ Hf) by done. cbv zeta.
    destruct (range_webhook_blind cfg w (currentTime c) (answers c) 0 l st) as [E1 E2].
    rewrite E1. split; [done|]. simpl. by rewrite !withoutPosts_app, E2.
Qed.

(** ** Failure to fetch, absent channels, webhook setting *)

(** C7.  When the list of media types cannot be obtained (the POST fails, the
    body does not decode, or the reply carries a non-zero error code) the call
    of [processMediaTypes] returns with the watch-state as it was and without
    any effect: no remote update, no webhook post, no syslog line, no write.
    Nothing is raised: the pass goes on to the group engine with the same
    watch-state, and the following passes run from that unchanged state. *)
Theorem C7_fetch_failure_aborts_cycle cfg c st :
  (∃ err, mediaReply c = TransportError err) ∨
  (∃ err, mediaReply c = MalformedBody err) ∨
  (∃ result code message data,
     mediaReply c = Decoded result code message data ∧ code ≠ 0) →
  cycle cfg c st = (st, []) ∧
  (∀ rest, runs cfg (c :: rest) st =
             ((runs cfg rest st).1, [] :: (runs cfg rest st).2)) ∧
  (∀ g p, state p = st →
     let r := pass fmtInt fmtDuration sysLogger cfg (mkCycle c g) p in
     state r.1 = st ∧
     r.2 = (processUserGroups fmtInt sysLogger cfg g (groupState p)
              (negb (groupStateExisted p))).2).
Proof.
  intros Hfail.
  assert (∃ err, fetch (mediaReply c) = inl err) as [err Hf].
  { destruct Hfail as [[e ->]|[[e ->]|(r & code & m & d & -> & Hcode)]]; simpl; eauto.
    rewrite decide_True by done. eauto. }
  assert (cycle cfg c st = (st, [])) as Hc by (by eapply cycle_fetch_failed).
  split; [done|]. split.
  - intros rest. rewrite runs_cons. cbv zeta. by rewrite Hc.
  - intros g p <-. unfold pass. simpl. rewrite Hc.
    by destruct (processUserGroups _ _ _ _ _ _) as [gs out2].
Qed.

(** C9.  Run the media engine over any sequence of passes under two
    configurations that differ in the webhook address only (set or empty):
    the watch-state after the passes is the same, and so are, pass by pass
    and in order, all effects other than the webhook posts themselves
    (remote updates, syslog lines, writes of the state file).  The engine
    takes no input from the webhook: the model of a pass has no field for
    what the webhook answers. *)
Theorem C9_webhook_never_steers_engine cfg w cycles st :
  (runs (withWebhook cfg w) cycles st).1 = (runs cfg cycles st).1 ∧
  withoutPosts <$> (runs (withWebhook cfg w) cycles st).2 =
    withoutPosts <$> (runs cfg cycles st).2.
Proof.
  revert st. induction cycles as [|c cycles IH]; intros st; [done|].
  rewrite !runs_cons. cbv zeta.
  destruct (cycle_webhook_blind cfg w c st) as [E1 E2].
  rewrite E1. destruct (IH (cycle cfg c st).1) as [E3 E4].
  split; [done|]. cbn [snd]. rewrite !fmap_cons. by rewrite E2, E4.
Qed.

(** C10.  Over any sequence of passes in which no fetched list contains the
    channel id (the fetch may also fail or return the empty list), the
    watch-state entry of that id is after the passes what it was before
    (present with the same instant, or absent), and no remote update is sent
    for it.  A pass whose fetched list is empty changes nothing at all. *)
Theorem C10_absent_channel_untouched cfg cycles st id :
  (∀ c l m, c ∈ cycles → getMediaTypes fmtInt (mediaReply c) = inr l → m ∈ l →
     MediaTypeID m ≠ id) →
  (mediaRuns fmtInt fmtDuration sysLogger cfg cycles st).1 !! id = st !! id ∧
  Forall (λ out, MediatypeUpdate id ∉ out)
    (mediaRuns fmtInt fmtDuration sysLogger cfg cycles st).2 ∧
  (∀ c st', getMediaTypes fmtInt (mediaReply c) = inr [] →
     processMediaTypes fmtInt fmtDuration sysLogger cfg c st' = (st', [])).
Proof.
  intros Habs. split; [|split].
  - revert st. induction cycles as [|c cycles IH]; intros st; [done|].
    rewrite runs_cons. cbv zeta. cbn [fst].
    rewrite IH by (intros c' l m Hc'; apply Habs; by right).
    apply cycle_frame. intros l m. apply Habs. by left.
  - revert st. induction cycles as [|c cycles IH]; intros st; [by constructor|].
    rewrite runs_cons. cbv zeta. cbn [snd]. constructor.
    + intros (l & m & Hf & Hm & Hid)%cycle_update.
      eapply (Habs c l m); [by left|done|done|done].
    + apply IH. intros c' l m Hc'. apply Habs. by right.
  - intros c st'. apply cycle_fetched_nothing.
Qed.

(** ** Following one channel through a pass *)

Lemma isUpdateOf_true id e : isUpdateOf id e = true ↔ e = MediatypeUpdate id.
Proof.
  destruct e; simpl; try (split; [discriminate|discriminate]).
  rewrite bool_decide_eq_true. split; [by intros ->|by intros [= ->]].
Qed.

Lemma updatesOf_app id out1 out2 :
  updatesOf id (out1 ++ out2) = (updatesOf id out1 + updatesOf id out2)%nat.
Proof. unfold updatesOf. by rewrite filter_app, length_app. Qed.

Lemma updatesOf_none id out : MediatypeUpdate id ∉ out → updatesOf id out = 0%nat.
Proof.
  unfold updatesOf. induction out as [|e out IH]; [done|].
  rewrite not_elem_of_cons. intros [Hne Hout].
  rewrite filter_cons_False by (rewrite isUpdateOf_true; congruence). by apply IH.
Qed.

Lemma updatesOf_positive id out : MediatypeUpdate id ∈ out → (0 < updatesOf id out)%nat.
Proof.
  unfold updatesOf. induction out as [|e out IH]; [by rewrite elem_of_nil|].
  rewrite elem_of_cons. intros [<-|Hin].
  - rewrite filter_cons_True by (by rewrite isUpdateOf_true). simpl. lia.
  - specialize (IH Hin). destruct (decide (isUpdateOf id e = true)).
    + rewrite filter_cons_True by done. simpl. lia.
    + by rewrite filter_cons_False.
Qed.

(** What an iteration does to the entry of its media type, and its effects,
    depend on that entry only. *)
Lemma step_local cfg now a media s st :
  s !! MediaTypeID media = st !! MediaTypeID media →
  (step cfg now a media s).1.1 !! MediaTypeID media =
    (step cfg now a media st).1.1 !! MediaTypeID media ∧
  (step cfg now a media s).1.2 = (step cfg now a media st).1.2 ∧
  (step cfg now a media s).2 = (step cfg now a media st).2.
Proof.
  intros Heq.
  destruct (decide (Status media = "1")) as [Hs|Hs];
    destruct (st !! MediaTypeID media) as [firstSeen|] eqn:Hl.
  - destruct (Z.le_gt_cases (OffDuration cfg) (Sub now firstSeen)) as [Hd|Hd].
    + destruct ((enable (MediaTypeID media) (enableReply a)).2) as [err|] eqn:He.
      * rewrite (step_enable_failed cfg _ _ _ s _ _ Hs Heq Hd He).
        rewrite (step_enable_failed cfg _ _ _ st _ _ Hs Hl Hd He). simpl.
        by rewrite Heq, Hl.
      * rewrite (step_enable_ok cfg _ _ _ s _ Hs Heq Hd He).
        rewrite (step_enable_ok cfg _ _ _ st _ Hs Hl Hd He). simpl.
        by rewrite !lookup_delete_eq.
    + rewrite (step_waiting cfg _ _ _ s _ Hs Heq Hd).
      rewrite (step_waiting cfg _ _ _ st _ Hs Hl Hd). simpl. by rewrite Heq, Hl.
  - rewrite (step_detect cfg _ _ _ s Hs Heq), (step_detect cfg _ _ _ st Hs Hl). simpl.
    by rewrite !lookup_insert_eq.
  - rewrite (step_restored cfg _ _ _ s _ Hs Heq), (step_restored cfg _ _ _ st _ Hs Hl).
    simpl. by rewrite !lookup_delete_eq.
  - rewrite (step_healthy cfg _ _ _ s Hs Heq), (step_healthy cfg _ _ _ st Hs Hl). simpl.
    by rewrite Heq, Hl.
Qed.

Lemma listedOnce_split l i media :
  listedOnce l i media →
  l = take i l ++ media :: drop (S i) l ∧ length (take i l) = i ∧
  (∀ m, m ∈ take i l → MediaTypeID m ≠ MediaTypeID media) ∧
  (∀ m, m ∈ drop (S i) l → MediaTypeID m ≠ MediaTypeID media).
Proof.
  intros [Hi Honly].
  pose proof (lookup_lt_Some _ _ _ Hi) as Hlt.
  split; [by rewrite <- (take_drop_middle l i media Hi) at 1|].
  split; [rewrite length_take; lia|]. split.
  - intros m [j Hj]%list_elem_of_lookup Hid.
    pose proof (lookup_lt_Some _ _ _ Hj) as Hjlt. rewrite length_take in Hjlt.
    rewrite lookup_take_lt in Hj by lia.
    specialize (Honly j m Hj Hid). lia.
  - intros m [j Hj]%list_elem_of_lookup Hid.
    rewrite lookup_drop in Hj. specialize (Honly _ m Hj Hid). lia.
Qed.

(** In a pass over a list that has [media] exactly once, at index [i], the
    entry of its id after the loop, the remote updates for its id, and the
    effects of its iteration are those of the iteration run on the state the
    pass started from. *)
Lemma range_focus cfg now ans l i media st :
  listedOnce l i media →
  let r := range cfg now ans 0 l st in
  let s := step cfg now (ans i) media st in
  r.1.1 !! MediaTypeID media = s.1.1 !! MediaTypeID media ∧
  updatesOf (MediaTypeID media) r.2 = updatesOf (MediaTypeID media) s.2 ∧
  (∀ e, e ∈ s.2 → e ∈ r.2).
Proof.
  intros (Hl & Hlen & Hbefore & Hafter)%listedOnce_split. cbv zeta.
  remember (take i l) as l1 eqn:E1. remember (drop (S i) l) as l2 eqn:E2.
  clear E1 E2. subst l.
  rewrite range_app. cbv zeta. rewrite range_cons. cbv zeta. simpl. rewrite Hlen.
  set (r1 := range cfg now ans 0 l1 st).
  assert (r1.1.1 !! MediaTypeID media = st !! MediaTypeID media) as Hr1
    by (by apply range_frame).
  destruct (step_local cfg now (ans i) media r1.1.1 st Hr1) as (E1 & E2 & E3).
  split; [|split].
  - rewrite range_frame by done. done.
  - rewrite !updatesOf_app, E3.
    rewrite (updatesOf_none _ r1.2).
    2:{ intros (m & Hm & Hid)%range_update. by eapply Hbefore. }
    rewrite (updatesOf_none _ (range _ _ _ _ _ _).2).
    2:{ intros (m & Hm & Hid)%range_update. by eapply Hafter. }
    lia.
  - intros e He. rewrite !elem_of_app, E3. auto.
Qed.

Lemma cycle_focus cfg c st l i media :
  fetch (mediaReply c) = inr l → listedOnce l i media →
  let r := cycle cfg c st in
  let s := step cfg (currentTime c) (answers c i) media st in
  r.1 !! MediaTypeID media = s.1.1 !! MediaTypeID media ∧
  updatesOf (MediaTypeID media) r.2 = updatesOf (MediaTypeID media) s.2 ∧
  (∀ e, e ∈ s.2 → e ∈ r.2).
Proof.
  intros Hf Hl. assert (l ≠ []) as Hne by (destruct Hl as [Hi _]; by destruct l).
  cbv zeta. rewrite (cycle_fetched _ _ _ _ Hf Hne). cbv zeta. cbn [fst snd].
  destruct (range_focus cfg (currentTime c) (answers c) l i media st Hl) as (E1 & E2 & E3).
  split; [done|]. split.
  - rewrite updatesOf_app, E2.
    destruct (_.1.2); unfold saveState, updatesOf; simpl; lia.
  - intros e He. rewrite elem_of_app. left. by apply E3.
Qed.

Lemma updatesOf_self id : updatesOf id [MediatypeUpdate id] = 1%nat.
Proof. unfold updatesOf. rewrite filter_cons_True; [done|]. by rewrite isUpdateOf_true. Qed.

Lemma updatesOf_syslogWarning id line : updatesOf id (syslogWarning sysLogger line) = 0%nat.
Proof. apply updatesOf_none, syslogWarning_no_update. Qed.

Lemma updatesOf_syslogInfo id line : updatesOf id (syslogInfo sysLogger line) = 0%nat.
Proof. apply updatesOf_none, syslogInfo_no_update. Qed.

Lemma updatesOf_notify id cfg msg : updatesOf id (notifyIfWebhook cfg msg) = 0%nat.
Proof. apply updatesOf_none, notifyIfWebhook_no_update. Qed.

(** A pass over a list that has the tracked, disabled [media] exactly once:
    before the threshold nothing is sent and the entry stays; from the
    threshold on exactly one update is sent, and the entry goes if and only
    if the update succeeded. *)
Lemma cycle_tracked cfg c st l i media firstSeen :
  fetch (mediaReply c) = inr l → listedOnce l i media →
  Status media = "1" → st !! MediaTypeID media = Some firstSeen →
  let id := MediaTypeID media in
  let r := cycle cfg c st in
  (Sub (currentTime c) firstSeen < OffDuration cfg →
     r.1 !! id = Some firstSeen ∧ updatesOf id r.2 = 0%nat) ∧
  (OffDuration cfg ≤ Sub (currentTime c) firstSeen →
     updatesOf id r.2 = 1%nat ∧
     ((enable id (enableReply (answers c i))).2 = None → r.1 !! id = None) ∧
     (∀ err, (enable id (enableReply (answers c i))).2 = Some err →
        r.1 !! id = Some firstSeen)).
Proof.
  intros Hf Hl Hs Hst. cbv zeta.
  destruct (cycle_focus cfg c st l i media Hf Hl) as (E1 & E2 & _).
  rewrite E1, E2. split.
  - intros Hd. rewrite (step_waiting cfg _ _ _ _ _ Hs Hst Hd). simpl.
    split; [done|]. destruct (Minutes_ge_30 _); [apply updatesOf_notify|done].
  - intros Hd. split; [|split].
    + destruct ((enable (MediaTypeID media) (enableReply (answers c i))).2)
        as [err|] eqn:He.
      * rewrite (step_enable_failed cfg _ _ _ _ _ _ Hs Hst Hd He). cbn [snd].
        rewrite !updatesOf_app, updatesOf_self, updatesOf_syslogWarning,
          updatesOf_notify. done.
      * rewrite (step_enable_ok cfg _ _ _ _ _ Hs Hst Hd He). cbn [snd].
        rewrite !updatesOf_app, updatesOf_self, updatesOf_syslogWarning,
          updatesOf_syslogInfo, updatesOf_notify. done.
    + intros He. rewrite (step_enable_ok cfg _ _ _ _ _ Hs Hst Hd He). simpl.
      apply lookup_delete_eq.
    + intros err He. by rewrite (step_enable_failed cfg _ _ _ _ _ _ Hs Hst Hd He).
Qed.

(** ** One iteration inside a pass *)

(** The loop around its iteration [i]: the iterations before it hand it the
    state they reached, the iterations after it start from the state it
    leaves; the effects come in that order. *)
Lemma range_at cfg now ans l i media st :
  l !! i = Some media →
  let reached := range cfg now ans 0 (take i l) st in
  let attempt := step cfg now (ans i) media reached.1.1 in
  let later := range cfg now ans (S i) (drop (S i) l) attempt.1.1 in
  range cfg now ans 0 l st =
    (later.1.1, reached.1.2 || (attempt.1.2 || later.1.2),
     reached.2 ++ attempt.2 ++ later.2).
Proof.
  intros Hi. cbv zeta.
  pose proof (lookup_lt_Some _ _ _ Hi) as Hlt.
  assert (length (take i l) = i) as Hlen by (rewrite length_take; lia).
  rewrite <- (take_drop_middle l i media Hi) at 1.
  rewrite range_app. cbv zeta. rewrite range_cons. cbv zeta. cbn [fst snd].
  rewrite Hlen. change (0 + i)%nat with i. done.
Qed.

Lemma cycle_at cfg c st l i media :
  fetch (mediaReply c) = inr l → l !! i = Some media →
  let reached := range cfg (currentTime c) (answers c) 0 (take i l) st in
  let attempt := step cfg (currentTime c) (answers c i) media reached.1.1 in
  let later :=
    range cfg (currentTime c) (answers c) (S i) (drop (S i) l) attempt.1.1 in
  (cycle cfg c st).1 = later.1.1 ∧
  ∃ after, (cycle cfg c st).2 = reached.2 ++ attempt.2 ++ after.
Proof.
  intros Hf Hi. cbv zeta.
  assert (l ≠ []) as Hne by (by destruct l).
  rewrite (cycle_fetched _ _ _ _ Hf Hne). cbv zeta.
  rewrite (range_at _ _ _ _ _ _ _ Hi). cbv zeta. cbn [fst snd].
  split; [done|]. eexists. by rewrite <- !app_assoc.
Qed.


(** ** Remediation and reminders *)

(** C6.  The pass has fetched a list and comes to its entry [i], a channel
    listed as disabled.  The watch-state it has reached there tracks the
    channel since [firstSeen], the threshold has passed, and the remote
    enable fails with [err] (the POST fails, the body does not decode, or
    the reply carries a non-zero error code).  Then
    - the iteration hands on the watch-state exactly as it reached it and
      does not mark it changed;
    - the effects of the pass have the update request followed at once by
      what the webhook sink makes of the alert, whose text is "Ошибка
      включения медиа: ", the channel name, a line break, "Ошибка: " and
      [err]; with an address configured the sink posts that text there;
    - if the id is not listed again further down the list, the entry is
      still there with [firstSeen] when the pass returns, and any later
      pass that comes to the channel listed as disabled, before any other
      entry of that id, requests the update again.
    Nothing is assumed on the shape of the list. *)
Theorem C6_failed_enable_keeps_entry cfg c st l i media firstSeen err :
  let id := MediaTypeID media in
  let reached :=
    (rangeMediaTypes fmtInt fmtDuration sysLogger cfg (currentTime c) (answers c) 0
       (take i l) st).1.1 in
  getMediaTypes fmtInt (mediaReply c) = inr l → l !! i = Some media →
  Status media = "1" → reached !! id = Some firstSeen →
  OffDuration cfg ≤ Sub (currentTime c) firstSeen →
  (enableMediaType fmtInt id (enableReply (answers c i))).2 = Some err →
  let alert := "Ошибка включения медиа: " +:+ Name media +:+ nl +:+ "Ошибка: " +:+ err in
  let attempt :=
    processMedia fmtInt fmtDuration sysLogger cfg (currentTime c) (answers c i) media
      reached in
  let r := processMediaTypes fmtInt fmtDuration sysLogger cfg c st in
  attempt.1 = (reached, false) ∧
  (∃ before after,
     r.2 = before ++ [MediatypeUpdate id] ++ notifyIfWebhook cfg alert ++ after) ∧
  (MattermostWebhook cfg ≠ "" → MattermostPost (MattermostWebhook cfg) alert ∈ r.2) ∧
  ((∀ m, m ∈ drop (S i) l → MediaTypeID m ≠ id) →
   r.1 !! id = Some firstSeen ∧
   ∀ c' l' i' media',
     getMediaTypes fmtInt (mediaReply c') = inr l' → l' !! i' = Some media' →
     MediaTypeID media' = id → Status media' = "1" →
     (∀ m, m ∈ take i' l' → MediaTypeID m ≠ id) →
     currentTime c ≤ currentTime c' →
     MediatypeUpdate id ∈ (processMediaTypes fmtInt fmtDuration sysLogger cfg c' r.1).2).
Proof.
  intros id reached Hf Hi Hs Hst Hd He alert attempt r.
  destruct (cycle_at cfg c st l i media Hf Hi) as (Hstate & after & Hout).
  fold reached in Hstate, Hout. fold attempt in Hstate, Hout. fold r in Hstate, Hout.
  assert (attempt = (reached, false,
            syslogWarning sysLogger
              (sysOverdue fmtDuration cfg media (Sub (currentTime c) firstSeen)) ++
            [MediatypeUpdate id] ++ notifyIfWebhook cfg alert)) as Hattempt
    by (by apply step_enable_failed).
  assert (∃ before after,
            r.2 = before ++ [MediatypeUpdate id] ++ notifyIfWebhook cfg alert ++ after)
    as Hseq.
  { exists ((range cfg (currentTime c) (answers c) 0 (take i l) st).2 ++
            syslogWarning sysLogger
              (sysOverdue fmtDuration cfg media (Sub (currentTime c) firstSeen))), after.
    rewrite Hout, Hattempt. cbn [snd]. by rewrite <- !app_assoc. }
  split; [by rewrite Hattempt|]. split; [done|]. split.
  - intros Hw. destruct Hseq as (before & after' & ->).
    rewrite (notifyIfWebhook_configured _ _ Hw), !elem_of_app.
    right. right. left. by apply list_elem_of_singleton.
  - intros Hlast.
    assert (r.1 !! id = Some firstSeen) as Hkeep.
    { rewrite Hstate, range_frame by done. by rewrite Hattempt. }
    split; [done|].
    intros c' l' i' media' Hf' Hi' Hid' Hs' Hfirst Htime.
    destruct (cycle_at cfg c' r.1 l' i' media' Hf' Hi') as (_ & after' & ->).
    assert ((range cfg (currentTime c') (answers c') 0 (take i' l') r.1).1.1
              !! MediaTypeID media' = Some firstSeen) as Hst'.
    { rewrite Hid', range_frame by done. done. }
    assert (OffDuration cfg ≤ Sub (currentTime c') firstSeen) as Hd'.
    { pose proof (Sub_mono _ _ firstSeen Htime). lia. }
    rewrite !elem_of_app. right. left. rewrite <- Hid'.
    destruct ((enable (MediaTypeID media') (enableReply (answers c' i'))).2)
      as [err'|] eqn:He'.
    + rewrite (step_enable_failed cfg _ _ _ _ _ _ Hs' Hst' Hd' He'). cbn [snd].
      rewrite !elem_of_app. right. left. by apply list_elem_of_singleton.
    + rewrite (step_enable_ok cfg _ _ _ _ _ Hs' Hst' Hd' He'). cbn [snd].
      rewrite !elem_of_app. right. left. by apply list_elem_of_singleton.
Qed.


(** C2 (amended).  A channel is tracked since [firstSeen] and stays listed
    as disabled.  Let [pre] be passes each of which either aborts (fetch
    failed or returned nothing), or comes before [firstSeen + OffDuration],
    or comes later but has its remote enable fail; let [c] be a pass at or
    after [firstSeen + OffDuration] that fetches the list.  Then
    - through [pre] the entry stays, with [firstSeen];
    - no pass before [firstSeen + OffDuration] and no aborted pass requests
      an update for the channel;
    - every pass at or after [firstSeen + OffDuration] that fetches the list
      requests exactly one, [c] included: a failed request is repeated by the
      next pass;
    - if the request of [c] succeeds the entry is removed, if it fails the
      entry stays with [firstSeen]. *)
Theorem C2_attempts_from_threshold cfg st media firstSeen pre c l i :
  let id := MediaTypeID media in
  let threshold := firstSeen + OffDuration cfg in
  Status media = "1" → st !! id = Some firstSeen →
  OffDuration cfg ≤ maxDuration →
  Forall (λ c',
            (∃ err, fetch (mediaReply c') = inl err) ∨
            fetch (mediaReply c') = inr [] ∨
            ∃ l' i', fetch (mediaReply c') = inr l' ∧ listedOnce l' i' media ∧
                     firstSeen ≤ currentTime c' ∧
                     (currentTime c' < threshold ∨
                      ∃ err, (enable id (enableReply (answers c' i'))).2 = Some err))
         pre →
  fetch (mediaReply c) = inr l → listedOnce l i media →
  threshold ≤ currentTime c →
  let s1 := (runs cfg pre st).1 in
  s1 !! id = Some firstSeen ∧
  Forall2 (λ c' out,
             (currentTime c' < threshold → updatesOf id out = 0%nat) ∧
             ((∃ err, fetch (mediaReply c') = inl err) → updatesOf id out = 0%nat) ∧
             (fetch (mediaReply c') = inr [] → updatesOf id out = 0%nat) ∧
             (threshold ≤ currentTime c' →
              (∃ l', fetch (mediaReply c') = inr l' ∧ l' ≠ []) →
              updatesOf id out = 1%nat))
          pre (runs cfg pre st).2 ∧
  updatesOf id (cycle cfg c s1).2 = 1%nat ∧
  ((enable id (enableReply (answers c i))).2 = None → (cycle cfg c s1).1 !! id = None) ∧
  (∀ err, (enable id (enableReply (answers c i))).2 = Some err →
     (cycle cfg c s1).1 !! id = Some firstSeen).
Proof.
  intros id threshold Hs Hst Hoff Hpre Hf Hl Hc.
  assert ((runs cfg pre st).1 !! id = Some firstSeen ∧
          Forall2 (λ c' out,
             (currentTime c' < threshold → updatesOf id out = 0%nat) ∧
             ((∃ err, fetch (mediaReply c') = inl err) → updatesOf id out = 0%nat) ∧
             (fetch (mediaReply c') = inr [] → updatesOf id out = 0%nat) ∧
             (threshold ≤ currentTime c' →
              (∃ l', fetch (mediaReply c') = inr l' ∧ l' ≠ []) →
              updatesOf id out = 1%nat))
            pre (runs cfg pre st).2) as [Hs1 Hcount].
  { clear Hf Hl Hc. revert st Hst.
    induction pre as [|c' pre IH]; intros st Hst; [by split; [|constructor]|].
    apply Forall_cons in Hpre as [Hc' Hpre]. specialize (IH Hpre).
    rewrite runs_cons. cbv zeta. cbn [fst snd].
    destruct Hc' as [[err Hf']|[Hf'|(l' & i' & Hf' & Hl' & Hafter & Hcase)]].
    - rewrite (cycle_fetch_failed _ _ _ _ Hf'). destruct (IH st Hst) as [IH1 IH2].
      split; [done|]. constructor; [|done].
      repeat split; try done. intros _ (l' & Hf'' & _). congruence.
    - rewrite (cycle_fetched_nothing _ _ _ Hf'). destruct (IH st Hst) as [IH1 IH2].
      split; [done|]. constructor; [|done].
      repeat split; try done. intros _ (l' & Hf'' & Hne). congruence.
    - destruct (cycle_tracked cfg c' st l' i' media firstSeen Hf' Hl' Hs Hst)
        as [Hwait Hdue].
      destruct (Z.le_gt_cases (OffDuration cfg) (Sub (currentTime c') firstSeen))
        as [Hd|Hd].
      + destruct Hcase as [Hearly|[err He]].
        { pose proof (Sub_below _ _ _ Hafter Hearly). lia. }
        destruct (Hdue Hd) as (Hone & _ & Hkeep).
        destruct (IH _ (Hkeep _ He)) as [IH1 IH2].
        split; [done|]. constructor; [|done].
        split; [|split; [|split]]; try done.
        * intros Hearly. pose proof (Sub_below _ _ _ Hafter Hearly). lia.
        * intros [e Hf'']. congruence.
        * intros Hf''. rewrite Hf' in Hf''. destruct Hl' as [Hi _].
          injection Hf'' as ->. by rewrite lookup_nil in Hi.
      + destruct (Hwait Hd) as [Hkeep Hzero].
        destruct (IH _ Hkeep) as [IH1 IH2].
        split; [done|]. constructor; [|done].
        split; [|split; [|split]]; try done.
        intros Hlate _. unfold threshold in Hlate.
        pose proof (Sub_reaches _ _ _ Hoff Hlate). lia. }
  cbv zeta. split; [done|]. split; [done|].
  destruct (cycle_tracked cfg c _ l i media firstSeen Hf Hl Hs Hs1) as [_ Hdue].
  apply Hdue. by apply Sub_reaches.
Qed.

(** ** Running a pass twice *)

(** On a settled state the loop changes nothing and sends nothing but
    reminders; with a clock that stands at [now] and nothing tracked for 30
    minutes, not even those. *)
Lemma range_settled cfg now ans i l s bound :
  bound ≤ OffDuration cfg →
  (∀ m, m ∈ l → settled now bound s m) →
  let r := range cfg now ans i l s in
  r.1 = (s, false) ∧ withoutPosts r.2 = [] ∧
  (bound ≤ 30 * Minute → (∀ j, clockNow (ans j) = now) → r.2 = []).
Proof.
  intros Hb. revert i. induction l as [|m l IH]; intros i Hall; [done|].
  cbv zeta. rewrite range_cons. cbv zeta.
  assert (settled now bound s m) as Hm by (apply Hall; by left).
  assert (let r1 := step cfg now (ans i) m s in
          r1.1 = (s, false) ∧ withoutPosts r1.2 = [] ∧
          (bound ≤ 30 * Minute → (∀ j, clockNow (ans j) = now) → r1.2 = []))
    as (E1 & E2 & E3).
  { unfold settled in Hm. destruct (decide (Status m = "1")) as [Hs|Hs].
    - destruct Hm as (firstSeen & Hst & Hlt).
      rewrite (step_waiting cfg _ _ _ _ _ Hs Hst) by lia. cbv zeta. cbn [fst snd].
      split; [done|]. split.
      + destruct (Minutes_ge_30 _); [apply withoutPosts_notify|done].
      + intros H30 Hclock. rewrite Hclock. unfold Minutes_ge_30, Since.
        destruct (Z.leb_spec (30 * Minute) (Sub now firstSeen)); [lia|done].
    - by rewrite (step_healthy cfg _ _ _ _ Hs Hm). }
  destruct (IH (S i)) as (E4 & E5 & E6); [intros; apply Hall; by right|].
  pose proof (f_equal fst E1) as E1s. pose proof (f_equal snd E1) as E1c.
  cbn [fst snd] in E1s, E1c. rewrite E1s, E1c.
  pose proof (f_equal fst E4) as E4s. pose proof (f_equal snd E4) as E4c.
  cbn [fst snd] in E4s, E4c. rewrite E4s, E4c. cbn [fst snd].
  split; [done|]. split.
  - by rewrite withoutPosts_app, E2, E5.
  - intros H30 Hclock. by rewrite E3, E6.
Qed.

(** With pairwise distinct ids and nothing overdue, every listed channel is
    settled after the loop. *)
Lemma range_settles cfg now ans i l st bound :
  0 < bound → bound ≤ OffDuration cfg →
  NoDup (MediaTypeID <$> l) →
  (∀ m firstSeen, m ∈ l → Status m = "1" → st !! MediaTypeID m = Some firstSeen →
     Sub now firstSeen < bound) →
  ∀ m, m ∈ l → settled now bound (range cfg now ans i l st).1.1 m.
Proof.
  intros Hpos Hb. revert i st. induction l as [|m0 l IH]; intros i st Hnd Hst m Hm.
  { by apply elem_of_nil in Hm. }
  rewrite fmap_cons in Hnd. apply NoDup_cons in Hnd as [Hfresh Hnd].
  assert (∀ m', m' ∈ l → MediaTypeID m' ≠ MediaTypeID m0) as Hother.
  { intros m' Hm' Heq. apply Hfresh. rewrite <- Heq. by apply list_elem_of_fmap_2. }
  rewrite range_cons. cbv zeta. cbn [fst].
  apply elem_of_cons in Hm as [->|Hm].
  - unfold settled. rewrite range_frame by done.
    destruct (decide (Status m0 = "1")) as [Hs|Hs];
      destruct (st !! MediaTypeID m0) as [firstSeen|] eqn:Hl.
    + assert (Sub now firstSeen < bound) as Hlt by (eapply Hst; [by left|done..]).
      rewrite (step_waiting cfg _ _ _ _ _ Hs Hl) by lia. eauto.
    + rewrite (step_detect cfg _ _ _ _ Hs Hl). cbn [fst].
      exists now. rewrite lookup_insert_eq, Sub_self. done.
    + rewrite (step_restored cfg _ _ _ _ _ Hs Hl). cbn [fst]. apply lookup_delete_eq.
    + by rewrite (step_healthy cfg _ _ _ _ Hs Hl).
  - apply IH; [done| |done].
    intros m' firstSeen Hm' Hs'. rewrite step_frame by (apply not_eq_sym; by apply Hother).
    apply Hst; [by right|done].
Qed.

(** C8 (amended).  Run a pass, then run a pass again on the same fetched
    list at the same instant.  Provided the ids in the list are pairwise
    distinct, [OffDuration] is positive, and no listed disabled channel was
    tracked for [OffDuration] or longer, the second pass returns the
    watch-state the first one produced and sends no remote update, no syslog
    line and writes no file; the only effects it can have are reminder posts.
    If, moreover, no listed disabled channel was tracked for 30 minutes or
    longer and the clock read inside the second pass stands at the same
    instant, the second pass has no effect at all. *)
Theorem C8_second_pass_is_quiet cfg c c2 st :
  0 < OffDuration cfg →
  mediaReply c2 = mediaReply c → currentTime c2 = currentTime c →
  (∀ l, fetch (mediaReply c) = inr l → NoDup (MediaTypeID <$> l)) →
  (∀ l m firstSeen, fetch (mediaReply c) = inr l → m ∈ l → Status m = "1" →
     st !! MediaTypeID m = Some firstSeen →
     Sub (currentTime c) firstSeen < OffDuration cfg) →
  let s1 := (cycle cfg c st).1 in
  (cycle cfg c2 s1).1 = s1 ∧
  withoutPosts (cycle cfg c2 s1).2 = [] ∧
  ((∀ j, clockNow (answers c2 j) = currentTime c) →
   (∀ l m firstSeen, fetch (mediaReply c) = inr l → m ∈ l → Status m = "1" →
      st !! MediaTypeID m = Some firstSeen →
      Sub (currentTime c) firstSeen < 30 * Minute) →
   (cycle cfg c2 s1).2 = []).
Proof.
  intros Hpos Hreply Htime Hnd Hst. cbv zeta.
  destruct (fetch (mediaReply c)) as [err|l] eqn:Hf.
  { assert (fetch (mediaReply c2) = inl err) as Hf2 by (by rewrite Hreply).
    by rewrite (cycle_fetch_failed _ _ _ _ Hf), (cycle_fetch_failed _ _ _ _ Hf2). }
  assert (fetch (mediaReply c2) = inr l) as Hf2 by (by rewrite Hreply).
  destruct (decide (l = [])) as [->|Hne].
  { by rewrite (cycle_fetched_nothing _ _ _ Hf), (cycle_fetched_nothing _ _ _ Hf2). }
  rewrite (cycle_fetched _ _ _ _ Hf Hne). cbv zeta. cbn [fst].
  set (s1 := (range cfg (currentTime c) (answers c) 0 l st).1.1).
  rewrite (cycle_fetched _ _ _ _ Hf2 Hne). cbv zeta. cbn [fst snd]. rewrite Htime.
  assert (∀ bound, 0 < bound → bound ≤ OffDuration cfg →
            (∀ m firstSeen, m ∈ l → Status m = "1" →
               st !! MediaTypeID m = Some firstSeen →
               Sub (currentTime c) firstSeen < bound) →
            let r := range cfg (currentTime c) (answers c2) 0 l s1 in
            r.1 = (s1, false) ∧ withoutPosts r.2 = [] ∧
            (bound ≤ 30 * Minute →
             (∀ j, clockNow (answers c2 j) = currentTime c) → r.2 = []))
    as Hquiet.
  { intros bound Hb0 Hb1 Hb2. apply range_settled; [done|].
    apply range_settles; eauto. }
  destruct (Hquiet (OffDuration cfg)) as (E1 & E2 & _); [done|lia|by eauto|].
  pose proof (f_equal fst E1) as E1s. pose proof (f_equal snd E1) as E1c.
  cbn [fst snd] in E1s, E1c. rewrite E1s, E1c, app_nil_r.
  split; [done|]. split; [done|].
  intros Hclock H30.
  destruct (Hquiet (Z.min (OffDuration cfg) (30 * Minute))) as (_ & _ & E3).
  - unfold Minute, Second. lia.
  - lia.
  - intros m firstSeen Hm Hs Hl.
    specialize (Hst l m firstSeen eq_refl Hm Hs Hl).
    specialize (H30 l m firstSeen eq_refl Hm Hs Hl). lia.
  - apply E3; [lia|done].
Qed.

(** ** Sorted member lists *)

Lemma string_le_alt a b :
  string_le a b ↔ a = b ∨ OrderedTypeEx.String_as_OT.lt a b.
Proof.
  unfold string_le, String.leb.
  pose proof (OrderedTypeEx.String_as_OT.cmp_eq a b) as Heq.
  pose proof (OrderedTypeEx.String_as_OT.cmp_lt a b) as Hlt.
  pose proof (OrderedTypeEx.String_as_OT.cmp_antisym a b) as Hanti.
  pose proof (OrderedTypeEx.String_as_OT.cmp_lt b a) as Hgt.
  unfold OrderedTypeEx.String_as_OT.cmp in *.
  destruct (String.compare a b) eqn:Hc.
  - split; [intros _; left; by apply Heq|done].
  - split; [intros _; right; by apply Hlt|done].
  - split; [done|]. intros [H%Heq|H%Hlt]; done.
Qed.

#[local] Instance string_le_total : Total string_le.
Proof. intros a b. apply String.leb_total. Qed.

#[local] Instance string_le_antisymm : AntiSymm (=) string_le.
Proof. intros a b. apply String.leb_antisym. Qed.

#[local] Instance string_le_trans : Transitive string_le.
Proof.
  intros a b c. rewrite !string_le_alt.
  intros [->|Hab] [->|Hbc]; auto.
  right. by eapply OrderedTypeEx.String_as_OT.lt_trans.
Qed.

Lemma sortStrings_Sorted l : Sorted string_le (sortStrings l).
Proof. apply Sorted_merge_sort, _. Qed.

Lemma sortStrings_Permutation l : sortStrings l ≡ₚ l.
Proof. apply merge_sort_Permutation. Qed.

(** The stored list does not depend on the order the server lists the
    members in, and differs as soon as the members differ. *)
Lemma sortStrings_order_independent l1 l2 :
  sortStrings l1 = sortStrings l2 ↔ l1 ≡ₚ l2.
Proof.
  split.
  - intros Heq. by rewrite <- (sortStrings_Permutation l1), Heq, sortStrings_Permutation.
  - intros Hperm. apply (Sorted_unique string_le); try apply sortStrings_Sorted.
    by rewrite !sortStrings_Permutation.
Qed.

Lemma slicesAgree_eq a b : length a = length b → slicesAgree a b = true ↔ a = b.
Proof.
  revert b. induction a as [|x a IH]; intros [|y b] Hlen; try done.
  simpl in *. destruct (decide (x ≠ y)) as [Hxy|Hxy].
  - split; [done|]. by intros [= -> _].
  - apply dec_stable in Hxy as ->. rewrite IH by lia. split; [by intros ->|by intros [= ->]].
Qed.

Lemma stringSlicesEqual_eq a b : stringSlicesEqual a b = true ↔ a = b.
Proof.
  unfold stringSlicesEqual. destruct (decide (length a ≠ length b)) as [Hlen|Hlen].
  - split; [done|]. intros ->. done.
  - apply dec_stable in Hlen. by apply slicesAgree_eq.
Qed.

(** On sorted member lists the element-wise comparison decides whether the
    members are the same, order aside. *)
Lemma stringSlicesEqual_sameMembers p cur :
  Sorted string_le (Users p) → Sorted string_le (Users cur) →
  stringSlicesEqual (Users p) (Users cur) = true ↔ sameMembers p cur.
Proof.
  intros Hsp Hsc. rewrite stringSlicesEqual_eq. unfold sameMembers. split.
  - by intros ->.
  - intros Hperm. by apply (Sorted_unique string_le).
Qed.

(** When no user id is repeated, the same members are the same set. *)
Lemma sameMembers_memberSet p cur :
  NoDup (Users p) → NoDup (Users cur) →
  sameMembers p cur ↔ memberSet p = memberSet cur.
Proof.
  intros Hnp Hnc. unfold sameMembers, memberSet. split.
  - intros Hperm. apply set_eq. intros x. rewrite !elem_of_list_to_set.
    by rewrite Hperm.
  - intros Hset. apply NoDup_Permutation; [done..|].
    intros x. rewrite <- !(elem_of_list_to_set (C := gset string)). by rewrite Hset.
Qed.

(** ** What [getUserGroups] builds *)

Lemma getUserGroups_entries (Q : string → UserGroup → Prop) r gs :
  getUserGroups fmtInt r = inr gs →
  (∀ result code message data rg,
     r = Decoded result code message data → rg ∈ result →
     Q (rawID rg) (mkUserGroup (rawID rg) (rawName rg) (sortStrings (rawUsers rg)))) →
  ∀ id g, gs !! id = Some g → Q id g.
Proof.
  destruct r as [err|err|result code message data]; try done. simpl.
  case_decide; [done|]. intros [= <-] HQ.
  assert (∀ rg, rg ∈ result →
            Q (rawID rg) (mkUserGroup (rawID rg) (rawName rg) (sortStrings (rawUsers rg))))
    as HQ' by eauto.
  clear HQ. revert HQ'.
  assert (∀ id g, (∅ : GroupState) !! id = Some g → Q id g) as Hinit
    by (intros id g; by rewrite lookup_empty).
  revert Hinit. generalize (∅ : GroupState).
  induction result as [|rg result IH]; intros init Hinit HQ; [done|].
  simpl. apply IH.
  - intros id g. rewrite lookup_insert. case_decide as Hid.
    + intros [= <-]. rewrite <- Hid. apply HQ. by left.
    + apply Hinit.
  - intros rg' Hrg'. apply HQ. by right.
Qed.

Lemma getUserGroups_keyedByID r gs : getUserGroups fmtInt r = inr gs → keyedByID gs.
Proof.
  intros Hr. unfold keyedByID, map_Forall.
  by apply (getUserGroups_entries (λ id g, ID g = id) r gs Hr).
Qed.

(** Members are stored sorted, whatever the server lists. *)
Lemma getUserGroups_storedSorted r gs :
  getUserGroups fmtInt r = inr gs → storedSorted gs.
Proof.
  intros Hr. unfold storedSorted, map_Forall.
  apply (getUserGroups_entries (λ _ g, Sorted string_le (Users g)) r gs Hr).
  intros result code message data rg Hdec Hrg. simpl. apply sortStrings_Sorted.
Qed.

(** Each member is stored once when the server lists each once; a user id
    the server repeats is stored as often. *)
Lemma getUserGroups_membersOnce r gs :
  getUserGroups fmtInt r = inr gs →
  (∀ result code message data rg,
     r = Decoded result code message data → rg ∈ result → NoDup (rawUsers rg)) →
  membersOnce gs.
Proof.
  intros Hr Hnd. unfold membersOnce, map_Forall.
  apply (getUserGroups_entries (λ _ g, NoDup (Users g)) r gs Hr).
  intros result code message data rg Hdec Hrg. simpl.
  rewrite sortStrings_Permutation. by eapply Hnd.
Qed.

(** ** The diff *)

Lemma into_third {A} (y : A) (l1 l2 l3 : list A) :
  y :: l1 ++ l2 ++ l3 ≡ₚ l1 ++ l2 ++ y :: l3.
Proof. by rewrite <- !Permutation_middle. Qed.

Lemma into_second_and_third {A} (x y : A) (l1 l2 l3 : list A) :
  x :: y :: l1 ++ l2 ++ l3 ≡ₚ l1 ++ x :: l2 ++ y :: l3.
Proof. rewrite <- !Permutation_middle. first [done | apply perm_swap]. Qed.

Lemma compareCurrent_kinds prev (l : list (string * UserGroup)) :
  storedSorted prev →
  (∀ id cur, (id, cur) ∈ l → Sorted string_le (Users cur)) →
  l ≫= compareCurrent prev ≡ₚ
    omap (λ '(id, cur),
            match prev !! id with
            | None => Some (msgAdded (GroupName cur))
            | Some _ => None
            end) l ++
    omap (λ '(id, cur),
            p ← prev !! id;
            if decide (GroupName p = GroupName cur) then None
            else Some (msgRenamed (GroupName p) (GroupName cur))) l ++
    omap (λ '(id, cur),
            p ← prev !! id;
            if decide (sameMembers p cur) then None
            else Some (msgMembers (GroupName cur))) l.
Proof.
  intros Hprev. induction l as [|[id cur] l IH]; intros Hl; [done|].
  rewrite bind_cons, IH by (intros id' cur' Hin; apply (Hl id' cur'); by right). clear IH.
  pose proof (Hl id cur) as Hsc. specialize (Hsc ltac:(by left)).
  cbn [omap list_omap compareCurrent]. destruct (prev !! id) as [p|] eqn:Hp; simpl.
  - pose proof (Hprev id p Hp) as Hsp. simpl in Hsp.
    pose proof (stringSlicesEqual_sameMembers p cur Hsp Hsc) as Hmem.
    destruct (decide (GroupName p ≠ GroupName cur)) as [Hn|Hn];
      destruct (decide (GroupName p = GroupName cur)) as [Hn'|Hn']; try done;
      destruct (stringSlicesEqual (Users p) (Users cur)) eqn:Heq;
      destruct (decide (sameMembers p cur)) as [Hm|Hm];
      try (by (apply Hmem in Hm; congruence));
      try (by (exfalso; apply Hm, Hmem)); simpl.
    + apply Permutation_middle.
    + apply into_second_and_third.
    + done.
    + apply into_third.
  - done.
Qed.

Lemma comparePrevious_kinds curr (l : list (string * UserGroup)) :
  l ≫= comparePrevious curr =
    omap (λ '(id, p),
            match curr !! id with
            | None => Some (msgRemoved (GroupName p))
            | Some _ => None
            end) l.
Proof.
  induction l as [|[id p] l IH]; [done|].
  rewrite bind_cons, IH. cbn [omap list_omap comparePrevious].
  by destruct (curr !! id).
Qed.

(** When no group lists a user id twice, comparing the members order aside
    is comparing them as sets. *)
Lemma membershipChanges_as_sets prev curr :
  membersOnce prev → membersOnce curr →
  membershipChanges prev curr = membershipChangesAsSets prev curr.
Proof.
  intros Hprev Hcurr. unfold membershipChanges, membershipChangesAsSets.
  assert (∀ id cur, (id, cur) ∈ map_to_list curr → NoDup (Users cur)) as Hl.
  { intros id cur Hin%elem_of_map_to_list. by apply (Hcurr id cur). }
  revert Hl. generalize (map_to_list curr). intros l.
  induction l as [|[id cur] l IH]; intros Hl; [done|].
  cbn [omap list_omap]. rewrite IH by (intros id' cur' Hin; apply (Hl id' cur'); by right).
  destruct (prev !! id) as [p|] eqn:Hp; simpl; [|done].
  pose proof (sameMembers_memberSet p cur (Hprev id p Hp)
                (Hl id cur ltac:(by left))) as Hsame.
  destruct (decide (sameMembers p cur)) as [Hm|Hm];
    destruct (decide (memberSet p = memberSet cur)) as [Hs|Hs]; try done.
  - by apply Hsame in Hm.
  - by apply Hsame in Hs.
Qed.

(** C4 (amended).  Prior and current group states hold their members sorted,
    as [getUserGroups] stores them whatever the server lists.  In whatever
    order the runtime ranges over the two maps, the list
    [compareGroupStates] returns is, up to order, the "added" descriptions
    for the ids in current only, the "renamed" descriptions for the ids in
    both whose names differ, the "membership changed" descriptions for the
    ids in both whose members differ with the order set aside, and the
    "removed" descriptions for the ids in prior only, each with the text the
    program gives it: one description per change and nothing else.  A user
    id listed twice counts twice; when no group lists a user id twice the
    members that differ are those that differ as sets.  Sorting makes the
    stored list independent of the order the server lists the members in.
    On the synthetic pair the result is the four descriptions. *)
Theorem C4_diff_reports_each_change prev curr orderCurr orderPrev :
  storedSorted prev → storedSorted curr →
  orderCurr ≡ₚ map_to_list curr → orderPrev ≡ₚ map_to_list prev →
  compareGroupStatesIn orderCurr orderPrev prev curr ≡ₚ
    addedChanges prev curr ++ renamedChanges prev curr ++
    membershipChanges prev curr ++ removedChanges prev curr ∧
  (membersOnce prev → membersOnce curr →
   membershipChanges prev curr = membershipChangesAsSets prev curr) ∧
  (∀ r gs, getUserGroups fmtInt r = inr gs → storedSorted gs) ∧
  (∀ l1 l2, sortStrings l1 = sortStrings l2 ↔ l1 ≡ₚ l2) ∧
  compareGroupStates synthPrev synthCurr =
    ["Изменён состав пользователей в группе Admins "; "Добавлена группа: New ";
     "Переименована группа Old -> Renamed "; "Удалена группа: Gone "].
Proof.
  intros Hprev Hcurr Hoc Hop. split; [|split; [|split; [|split]]].
  - unfold compareGroupStatesIn, addedChanges, renamedChanges, membershipChanges,
      removedChanges.
    rewrite comparePrevious_kinds, compareCurrent_kinds; [|done|].
    + rewrite <- !Hoc, <- !Hop. by rewrite <- !app_assoc.
    + intros id cur Hin. rewrite Hoc in Hin.
      apply elem_of_map_to_list in Hin. by apply (Hcurr id cur).
  - apply membershipChanges_as_sets.
  - apply getUserGroups_storedSorted.
  - apply sortStrings_order_independent.
  - by vm_compute.
Qed.

(** ** One call of [processUserGroups] *)

Lemma copyInto_union (current prev : GroupState) : copyInto current prev = current ∪ prev.
Proof.
  unfold copyInto.
  apply (map_fold_weak_ind (λ (r : GroupState) m, r = m ∪ prev)).
  - by rewrite (left_id_L ∅ (∪)).
  - intros i x m r _ ->. by rewrite insert_union_l.
Qed.

Lemma dropStale_lookup (current prev : GroupState) k :
  dropStale current prev !! k =
    match current !! k with None => None | Some _ => prev !! k end.
Proof.
  unfold dropStale.
  pose (P := λ (r m : GroupState), ∀ k,
          r !! k = match current !! k with
                   | None => match m !! k with Some _ => None | None => prev !! k end
                   | Some _ => prev !! k
                   end).
  assert (∀ m : GroupState,
            P (map_fold (λ k _ (acc : GroupState),
                           match current !! k with
                           | None => delete k acc
                           | Some _ => acc
                           end) prev m) m) as H.
  { apply (map_fold_weak_ind P); unfold P.
    - intros k'. rewrite lookup_empty. by destruct (current !! k').
    - intros i x m r Hi IH k'.
      destruct (decide (i = k')) as [->|Hne].
      + rewrite lookup_insert_eq. destruct (current !! k') eqn:Hc.
        * specialize (IH k'). by rewrite Hc in IH.
        * apply lookup_delete_eq.
      + rewrite lookup_insert_ne by done. specialize (IH k').
        destruct (current !! i); [done|]. by rewrite lookup_delete_ne. }
  specialize (H prev k). rewrite H.
  destruct (current !! k); [done|]. by destruct (prev !! k) eqn:E.
Qed.

(** The in-place rebuild leaves exactly the observation. *)
Lemma rebuild_is_current (current prev : GroupState) :
  copyInto current (dropStale current prev) = current.
Proof.
  rewrite copyInto_union. apply map_eq. intros k.
  rewrite lookup_union, dropStale_lookup.
  destruct (current !! k) eqn:Hc; [|done]. by destruct (prev !! k).
Qed.

Lemma bind_nil_inv {A B} (f : A → list B) (l : list A) x :
  l ≫= f = [] → x ∈ l → f x = [].
Proof.
  induction l as [|y l IH]; [by intros _ ?%elem_of_nil|].
  rewrite bind_cons. intros [Hy Hl]%app_eq_nil [->|Hin]%elem_of_cons; auto.
Qed.

(** No change reported: the two states are the same map. *)
Lemma no_changes_same (prev current : GroupState) :
  keyedByID prev → keyedByID current →
  compareGroupStates prev current = [] → prev = current.
Proof.
  intros Hkp Hkc. unfold compareGroupStates, compareGroupStatesIn.
  intros [Hc Hp]%app_eq_nil. apply map_eq. intros k.
  destruct (current !! k) as [cur|] eqn:Hcur.
  - pose proof (bind_nil_inv _ _ (k, cur) Hc) as H.
    rewrite elem_of_map_to_list in H. specialize (H Hcur). simpl in H.
    destruct (prev !! k) as [p|] eqn:Hprev; [|done].
    apply app_eq_nil in H as [Hname Husers].
    destruct (decide (GroupName p ≠ GroupName cur)) as [|Hn%dec_stable]; [done|].
    destruct (stringSlicesEqual (Users p) (Users cur)) eqn:Heq; [|done].
    apply stringSlicesEqual_eq in Heq.
    pose proof (Hkp k p Hprev). pose proof (Hkc k cur Hcur).
    destruct p, cur; simpl in *; by subst.
  - destruct (prev !! k) as [p|] eqn:Hprev; [|done].
    pose proof (bind_nil_inv _ _ (k, p) Hp) as H.
    rewrite elem_of_map_to_list in H. specialize (H Hprev). simpl in H.
    by rewrite Hcur in H.
Qed.

(** C5.  A pass of the group engine outside baseline mode whose fetch
    succeeds, started from a prior in which every group sits under its own
    id.  After the pass the in-memory prior is exactly the observation.  If
    the diff is not empty, the pass reports each change and then writes the
    observation, whole, to the snapshot file; [prev] was rebuilt from the
    observation, ids that are gone dropped.  If the diff is empty the pass
    leaves the prior as it is and has no effect: no report, no write. *)
Theorem C5_steady_pass_mirrors_observation cfg c prev current :
  getUserGroups fmtInt (groupReply c) = inr current →
  keyedByID prev →
  let changes := compareGroupStates prev current in
  let r := processUserGroups fmtInt sysLogger cfg c prev false in
  r.1 = current ∧
  (changes ≠ [] →
     r.2 = (changes ≫= reportChange sysLogger cfg) ++
           [WriteGroupState groupStateFilename current (groupWriteErr c)]) ∧
  (changes = [] → r = (prev, [])).
Proof.
  intros Hf Hkp. cbv zeta. unfold processUserGroups. rewrite Hf.
  destruct (compareGroupStates prev current) as [|ch changes] eqn:Hch.
  - rewrite decide_False by (simpl; lia). split; [|done]. simpl.
    apply no_changes_same; [done| |done]. by eapply getUserGroups_keyedByID.
  - rewrite decide_True by (simpl; lia). split; [|done]. simpl.
    apply rebuild_is_current.
Qed.

(** ** Baseline *)

(** When the first pass of a process without snapshot file fetches the
    groups, that pass writes the observation, takes it as prior and reports
    nothing. *)
Lemma baseline_on_first_pass cfg state0 c current :
  getUserGroups fmtInt (groupReply (groupCycle c)) = inr current →
  let p0 := startup state0 FileNotExist in
  let r := pass fmtInt fmtDuration sysLogger cfg c p0 in
  groupState r.1 = current ∧ groupStateExisted r.1 = true ∧
  r.2 = (cycle cfg (mediaCycle c) state0).2 ++
        [WriteGroupState groupStateFilename current (groupWriteErr (groupCycle c))].
Proof.
  intros Hf. cbv zeta. unfold pass, startup. simpl.
  destruct (cycle cfg (mediaCycle c) state0) as [s out1]. simpl.
  unfold processUserGroups. rewrite Hf. simpl.
  split; [|done]. rewrite copyInto_union. by rewrite (right_id_L ∅ (∪)).
Qed.

(** Whatever the first pass fetched, every later pass runs outside baseline
    mode. *)
Lemma baseline_flag_set_by_any_pass cfg c p :
  groupStateExisted (pass fmtInt fmtDuration sysLogger cfg c p).1 = true.
Proof.
  unfold pass. destruct (cycle _ _ _) as [s out1].
  destruct (processUserGroups _ _ _ _ _ _) as [gs out2]. simpl.
  by destruct (groupStateExisted p).
Qed.

(** ** More on the media engine *)

Lemma syslogWarning_is line e : e ∈ syslogWarning sysLogger line → e = SyslogWarning line.
Proof.
  unfold syslogWarning. destruct sysLogger; [|by intros ?%elem_of_nil].
  by intros ?%list_elem_of_singleton.
Qed.

Lemma syslogInfo_is line e : e ∈ syslogInfo sysLogger line → e = SyslogInfo line.
Proof.
  unfold syslogInfo. destruct sysLogger; [|by intros ?%elem_of_nil].
  by intros ?%list_elem_of_singleton.
Qed.

(** An iteration sends syslog lines, one remote update at most, and webhook
    posts; it never writes the state file. *)
Lemma step_effects cfg now a media st e :
  e ∈ (step cfg now a media st).2 →
  isStateWrite e = false ∧
  (isUpdate e = true → e = MediatypeUpdate (MediaTypeID media)).
Proof.
  step_branches cfg now a media st; cbn [snd]; intros H;
    try destruct (Minutes_ge_30 _);
    repeat first [apply elem_of_app in H as [H|H] | apply elem_of_cons in H as [H|H]];
    try (by apply elem_of_nil in H);
    try (apply syslogWarning_is in H as ->; done);
    try (apply syslogInfo_is in H as ->; done);
    try (apply notifyIfWebhook_posts in H as ->; done);
    by subst.
Qed.

Lemma step_update_count cfg now a media st :
  (updateCount (step cfg now a media st).2 ≤
     if decide (Status media = "1") then 1 else 0)%nat.
Proof.
  assert (∀ line, updateCount (syslogWarning sysLogger line) = 0%nat) as Hw
    by (intros; unfold syslogWarning; by destruct sysLogger).
  assert (∀ line, updateCount (syslogInfo sysLogger line) = 0%nat) as Hi
    by (intros; unfold syslogInfo; by destruct sysLogger).
  assert (∀ msg, updateCount (notifyIfWebhook cfg msg) = 0%nat) as Hn.
  { intros. unfold notifyIfWebhook, sendMattermostNotification. by repeat case_decide. }
  assert (∀ o1 o2, updateCount (o1 ++ o2) = (updateCount o1 + updateCount o2)%nat) as Happ
    by (intros; unfold updateCount; by rewrite filter_app, length_app).
  step_branches cfg now a media st; cbn [snd];
    try destruct (Minutes_ge_30 _);
    rewrite ?Happ, ?Hw, ?Hi, ?Hn;
    destruct (decide (Status media = "1")); try done;
    unfold updateCount; simpl; lia.
Qed.

(** Where an entry found after an iteration comes from. *)
Lemma step_provenance cfg now a media st id T :
  (step cfg now a media st).1.1 !! id = Some T →
  st !! id = Some T ∨
  (T = now ∧ id = MediaTypeID media ∧ Status media = "1" ∧ st !! id = None).
Proof.
  step_branches cfg now a media st; cbn [fst]; try by left.
  - rewrite lookup_delete. case_decide; [done|by left].
  - rewrite lookup_insert. case_decide as Hid; [|by left].
    intros [= <-]. right. by rewrite <- Hid.
  - rewrite lookup_delete. case_decide; [done|by left].
Qed.

Lemma range_effects cfg now ans i l st e :
  e ∈ (range cfg now ans i l st).2 → isStateWrite e = false.
Proof.
  revert i st. induction l as [|m l IH]; intros i st; [by intros ?%elem_of_nil|].
  rewrite range_cons. cbv zeta. cbn [snd]. intros [H|H]%elem_of_app.
  - by apply step_effects in H as [? _].
  - by eapply IH.
Qed.

Lemma range_provenance cfg now ans i l st id firstSeen :
  (range cfg now ans i l st).1.1 !! id = Some firstSeen →
  st !! id = Some firstSeen ∨
  (firstSeen = now ∧ ∃ m, m ∈ l ∧ MediaTypeID m = id ∧ Status m = "1").
Proof.
  revert i st. induction l as [|m l IH]; intros i st; [by left|].
  rewrite range_cons. cbv zeta. cbn [fst]. intros [H|(HT & m' & ? & ? & ?)]%IH.
  - apply step_provenance in H as [H|(HT & Hid & ? & _)]; [by left|].
    right. split; [done|]. exists m. split; [by left|done].
  - right. split; [done|]. exists m'. split; [by right|done].
Qed.

(** A remote update in the loop: for a listed disabled channel whose entry,
    the one the loop started with or one the loop itself just recorded, is
    overdue. *)
Lemma range_update_due cfg now ans i l st id :
  MediatypeUpdate id ∈ (range cfg now ans i l st).2 →
  (∃ m, m ∈ l ∧ MediaTypeID m = id ∧ Status m = "1") ∧
  ∃ firstSeen, (st !! id = Some firstSeen ∨ firstSeen = now) ∧
               OffDuration cfg ≤ Sub now firstSeen.
Proof.
  revert i st. induction l as [|m l IH]; intros i st; [by intros ?%elem_of_nil|].
  rewrite range_cons. cbv zeta. cbn [snd]. intros [H|H]%elem_of_app.
  - apply step_update in H as (-> & Hs & T & Hst & Hdue). split.
    + exists m. split; [by left|done].
    + exists T. auto.
  - apply IH in H as [(m' & ? & ? & ?) (T & Hfrom & Hdue)]. split.
    + exists m'. split; [by right|done].
    + exists T. split; [|done]. destruct Hfrom as [Hst|HT]; [|by right].
      apply step_provenance in Hst as [Hst|[HT _]]; auto.
Qed.

Lemma range_update_count cfg now ans i l st :
  (updateCount (range cfg now ans i l st).2 ≤
     length (filter (λ m, Status m = "1") l))%nat.
Proof.
  revert i st. induction l as [|m l IH]; intros i st; [done|].
  rewrite range_cons. cbv zeta. cbn [snd].
  unfold updateCount at 1. rewrite filter_app, length_app.
  fold (updateCount (step cfg now (ans i) m st).2).
  pose proof (step_update_count cfg now (ans i) m st) as H1.
  specialize (IH (S i) (step cfg now (ans i) m st).1.1). unfold updateCount in IH at 1.
  destruct (decide (Status m = "1")).
  - rewrite filter_cons_True by done. simpl. lia.
  - rewrite filter_cons_False by done. lia.
Qed.

(** In a pass over a list that has [media] exactly once, the iteration of
    [media] marking the state changed makes the pass end with a write of the
    state it returns. *)
Lemma cycle_focus_write cfg c st l i media :
  fetch (mediaReply c) = inr l → listedOnce l i media →
  (step cfg (currentTime c) (answers c i) media st).1.2 = true →
  ∃ out, (cycle cfg c st).2 =
           out ++ [WriteMediaState (StateFile cfg) (cycle cfg c st).1 (stateWriteErr c)].
Proof.
  intros Hf Hl Hflag.
  assert (l ≠ []) as Hne by (destruct Hl as [Hi _]; by destruct l).
  rewrite (cycle_fetched _ _ _ _ Hf Hne). cbv zeta. cbn [fst snd].
  eexists. f_equal.
  assert ((range cfg (currentTime c) (answers c) 0 l st).1.2 = true) as ->; [|done].
  apply listedOnce_split in Hl as (Hl & Hlen & Hbefore & _).
  remember (take i l) as l1 eqn:E1. remember (drop (S i) l) as l2 eqn:E2.
  clear E1 E2. subst l.
  rewrite range_app. cbv zeta. rewrite range_cons. cbv zeta. cbn [fst snd]. rewrite Hlen.
  set (r1 := range cfg (currentTime c) (answers c) 0 l1 st).
  assert (r1.1.1 !! MediaTypeID media = st !! MediaTypeID media) as Hr1
    by (by apply range_frame).
  destruct (step_local cfg (currentTime c) (answers c i) media r1.1.1 st Hr1)
    as (_ & E & _).
  change (0 + i)%nat with i. rewrite E, Hflag. cbn [orb]. apply orb_true_r.
Qed.

Lemma NoDup_listedOnce (l : list MediaType) i media :
  NoDup (MediaTypeID <$> l) → l !! i = Some media → listedOnce l i media.
Proof.
  intros Hnd Hi. split; [done|]. intros j m Hj Hid.
  apply (NoDup_lookup _ j i (MediaTypeID media) Hnd).
  - by rewrite list_lookup_fmap, Hj, <- Hid.
  - by rewrite list_lookup_fmap, Hi.
Qed.

(** X1.  A pass writes the state file at most once, as its last effect, with the
    state it returns; a pass that does not write returns the state it was
    given. *)
Theorem media_state_written_when_changed cfg c st :
  let r := processMediaTypes fmtInt fmtDuration sysLogger cfg c st in
  ∃ out, (∀ e, e ∈ out → isStateWrite e = false) ∧
         ((r.2 = out ∧ r.1 = st) ∨
          r.2 = out ++ [WriteMediaState (StateFile cfg) r.1 (stateWriteErr c)]).
Proof.
  cbv zeta. destruct (fetch (mediaReply c)) as [err|l] eqn:Hf.
  { rewrite (cycle_fetch_failed _ _ _ _ Hf). exists []. split; [by intros e ?%elem_of_nil|by left]. }
  destruct (decide (l = [])) as [->|Hne].
  { rewrite (cycle_fetched_nothing _ _ _ Hf). exists [].
    split; [by intros e ?%elem_of_nil|by left]. }
  rewrite (cycle_fetched _ _ _ _ Hf Hne). cbv zeta. cbn [fst snd].
  exists (range cfg (currentTime c) (answers c) 0 l st).2. split.
  - intros e. apply range_effects.
  - destruct (range cfg (currentTime c) (answers c) 0 l st).1.2 eqn:Hflag; [by right|].
    left. rewrite app_nil_r. split; [done|]. by apply range_unchanged.
Qed.

(** X2.  A channel listed as enabled (any status other than "1") that is tracked:
    the pass drops its entry without any remote update, hands the "restored"
    message to the webhook sink and ends with a write of the state. *)
Theorem restored_channel_is_dropped cfg c st l i media firstSeen :
  getMediaTypes fmtInt (mediaReply c) = inr l → listedOnce l i media →
  Status media ≠ "1" → st !! MediaTypeID media = Some firstSeen →
  let r := processMediaTypes fmtInt fmtDuration sysLogger cfg c st in
  r.1 !! MediaTypeID media = None ∧
  updatesOf (MediaTypeID media) r.2 = 0%nat ∧
  notifyIfWebhook cfg (msgRestored (Name media)) ⊆ r.2 ∧
  ∃ out, r.2 = out ++ [WriteMediaState (StateFile cfg) r.1 (stateWriteErr c)].
Proof.
  intros Hf Hl Hs Hst. cbv zeta.
  destruct (cycle_focus cfg c st l i media Hf Hl) as (E1 & E2 & Hin).
  pose proof (cycle_focus_write cfg c st l i media Hf Hl) as Hwrite.
  rewrite (step_restored cfg _ _ _ _ _ Hs Hst) in E1, E2, Hin, Hwrite.
  cbn [fst snd] in *. split; [|split; [|split]].
  - rewrite E1. apply lookup_delete_eq.
  - rewrite E2. apply updatesOf_notify.
  - intros e. apply Hin.
  - by apply Hwrite.
Qed.

(** X3.  A channel listed as disabled that is not tracked: the pass records it
    with the instant read at the start of the pass, sends no remote update
    for it whatever the threshold, puts the warning on syslog, hands the
    "detected" message to the webhook sink and ends with a write of the
    state. *)
Theorem new_disabled_channel_is_recorded cfg c st l i media :
  getMediaTypes fmtInt (mediaReply c) = inr l → listedOnce l i media →
  Status media = "1" → st !! MediaTypeID media = None →
  let r := processMediaTypes fmtInt fmtDuration sysLogger cfg c st in
  r.1 !! MediaTypeID media = Some (currentTime c) ∧
  updatesOf (MediaTypeID media) r.2 = 0%nat ∧
  syslogWarning sysLogger (sysDetected media) ⊆ r.2 ∧
  notifyIfWebhook cfg
    (msgDetected fmtDuration (Name media)
       (int64 (OffDuration cfg - Since (clockNow (answers c i)) (currentTime c)))) ⊆ r.2 ∧
  ∃ out, r.2 = out ++ [WriteMediaState (StateFile cfg) r.1 (stateWriteErr c)].
Proof.
  intros Hf Hl Hs Hst. cbv zeta.
  destruct (cycle_focus cfg c st l i media Hf Hl) as (E1 & E2 & Hin).
  pose proof (cycle_focus_write cfg c st l i media Hf Hl) as Hwrite.
  rewrite (step_detect cfg _ _ _ _ Hs Hst) in E1, E2, Hin, Hwrite.
  cbn [fst snd] in *. split; [|split; [|split; [|split]]].
  - rewrite E1. apply lookup_insert_eq.
  - rewrite E2, updatesOf_app, updatesOf_syslogWarning, updatesOf_notify. done.
  - intros e He. apply Hin, elem_of_app. by left.
  - intros e He. apply Hin, elem_of_app. by right.
  - by apply Hwrite.
Qed.

(** X4.  A tracked channel past the threshold, listed once in the fetched
    list, whose remote enable succeeds: the info line goes to syslog, the
    "enabled by the script" message to the webhook sink, and the pass ends
    with a write of the state, in which the channel is no longer tracked. *)
Theorem successful_enable_is_reported_and_saved cfg c st l i media firstSeen :
  getMediaTypes fmtInt (mediaReply c) = inr l → listedOnce l i media →
  Status media = "1" → st !! MediaTypeID media = Some firstSeen →
  OffDuration cfg ≤ Sub (currentTime c) firstSeen →
  (enableMediaType fmtInt (MediaTypeID media) (enableReply (answers c i))).2 = None →
  let r := processMediaTypes fmtInt fmtDuration sysLogger cfg c st in
  syslogInfo sysLogger (sysEnabled media) ⊆ r.2 ∧
  notifyIfWebhook cfg (msgEnabled (Name media)) ⊆ r.2 ∧
  ∃ out content,
    r.2 = out ++ [WriteMediaState (StateFile cfg) content (stateWriteErr c)] ∧
    content = r.1 ∧ content !! MediaTypeID media = None.
Proof.
  intros Hf Hl Hs Hst Hd He. cbv zeta.
  destruct (cycle_focus cfg c st l i media Hf Hl) as (E1 & _ & Hin).
  pose proof (cycle_focus_write cfg c st l i media Hf Hl) as Hwrite.
  rewrite (step_enable_ok cfg _ _ _ _ _ Hs Hst Hd He) in E1, Hin, Hwrite.
  cbn [fst snd] in *. split; [|split].
  - intros e He'. apply Hin. rewrite !elem_of_app. auto.
  - intros e He'. apply Hin. rewrite !elem_of_app. auto.
  - destruct Hwrite as [out Hout]; [done|]. exists out, (cycle cfg c st).1.
    split; [done|]. split; [done|]. rewrite E1. apply lookup_delete_eq.
Qed.

(** X5.  When no listed channel is disabled and none of them is tracked, the pass
    does nothing: same state, no effect.  Any status other than "1" counts
    as enabled. *)
Theorem healthy_pass_is_silent cfg c st l :
  getMediaTypes fmtInt (mediaReply c) = inr l →
  (∀ m, m ∈ l → Status m ≠ "1" ∧ st !! MediaTypeID m = None) →
  processMediaTypes fmtInt fmtDuration sysLogger cfg c st = (st, []).
Proof.
  intros Hf Hall.
  destruct (decide (l = [])) as [->|Hne]; [by apply cycle_fetched_nothing|].
  rewrite (cycle_fetched _ _ _ _ Hf Hne). cbv zeta.
  assert (∀ i, range cfg (currentTime c) (answers c) i l st = (st, false, [])) as ->;
    [|done].
  clear Hf Hne. induction l as [|m l IH]; intros i; [done|].
  rewrite range_cons. cbv zeta. destruct (Hall m) as [Hs Hst]; [by left|].
  rewrite (step_healthy cfg _ _ _ _ Hs Hst). cbn [fst snd].
  rewrite IH by (intros; apply Hall; by right). done.
Qed.

(** X6.  Every entry of the state a pass returns was in the state the pass was
    given, with the same instant, or is the instant read at the start of the
    pass under the id of a channel the fetched list shows as disabled. *)
Theorem entries_are_inherited_or_recorded_now cfg c st id firstSeen :
  (processMediaTypes fmtInt fmtDuration sysLogger cfg c st).1 !! id = Some firstSeen →
  st !! id = Some firstSeen ∨
  (firstSeen = currentTime c ∧
   ∃ l m, getMediaTypes fmtInt (mediaReply c) = inr l ∧ m ∈ l ∧
          MediaTypeID m = id ∧ Status m = "1").
Proof.
  destruct (fetch (mediaReply c)) as [err|l] eqn:Hf.
  { rewrite (cycle_fetch_failed _ _ _ _ Hf). by left. }
  destruct (decide (l = [])) as [->|Hne].
  { rewrite (cycle_fetched_nothing _ _ _ Hf). by left. }
  rewrite (cycle_fetched _ _ _ _ Hf Hne). cbv zeta. cbn [fst].
  intros [H|(HT & m & ? & ? & ?)]%range_provenance; [by left|].
  right. split; [done|]. by exists l, m.
Qed.

(** X7.  With pairwise distinct ids in the fetched list, a tracked entry either
    keeps its instant through the pass or is gone after it, and it is gone
    only if the channel was listed as enabled or a remote update was sent
    for it. *)
Theorem tracked_entry_kept_or_released cfg c st l id firstSeen :
  getMediaTypes fmtInt (mediaReply c) = inr l → NoDup (MediaTypeID <$> l) →
  st !! id = Some firstSeen →
  let r := processMediaTypes fmtInt fmtDuration sysLogger cfg c st in
  r.1 !! id = Some firstSeen ∨
  (r.1 !! id = None ∧
   ∃ m, m ∈ l ∧ MediaTypeID m = id ∧ (Status m ≠ "1" ∨ MediatypeUpdate id ∈ r.2)).
Proof.
  intros Hf Hnd Hst. cbv zeta.
  destruct (decide (id ∈ MediaTypeID <$> l)) as [Hin|Hout].
  - apply list_elem_of_fmap in Hin as (m & -> & [i Hi]%list_elem_of_lookup).
    pose proof (NoDup_listedOnce l i m Hnd Hi) as Hl.
    assert (m ∈ l) as Hm by (apply list_elem_of_lookup; eauto).
    destruct (cycle_focus cfg c st l i m Hf Hl) as (E1 & _ & Hev). rewrite E1.
    destruct (decide (Status m = "1")) as [Hs|Hs].
    + destruct (Z.le_gt_cases (OffDuration cfg) (Sub (currentTime c) firstSeen))
        as [Hd|Hd].
      * destruct ((enable (MediaTypeID m) (enableReply (answers c i))).2)
          as [err|] eqn:He.
        { left. by rewrite (step_enable_failed cfg _ _ _ _ _ _ Hs Hst Hd He). }
        right. rewrite (step_enable_ok cfg _ _ _ _ _ Hs Hst Hd He) in Hev |- *.
        cbn [fst snd] in *. split; [apply lookup_delete_eq|].
        exists m. split; [done|]. split; [done|]. right.
        apply Hev. rewrite !elem_of_app. right. left. by apply list_elem_of_singleton.
      * left. by rewrite (step_waiting cfg _ _ _ _ _ Hs Hst Hd).
    + right. rewrite (step_restored cfg _ _ _ _ _ Hs Hst). cbn [fst].
      split; [apply lookup_delete_eq|]. exists m. auto.
  - left. rewrite cycle_frame; [done|].
    intros l' m Hf' Hm Hid. rewrite Hf in Hf'. injection Hf' as <-.
    apply Hout. rewrite <- Hid. by apply list_elem_of_fmap_2.
Qed.

(** X8.  A pass sends a remote update only for an id that the fetched list shows
    as disabled; with a positive threshold, only for an id that was tracked
    when the pass started, for at least the threshold.  This holds for every
    fetched list, repeated ids included. *)
Theorem update_only_for_overdue_disabled cfg c st id :
  MediatypeUpdate id ∈ (processMediaTypes fmtInt fmtDuration sysLogger cfg c st).2 →
  (∃ l m, getMediaTypes fmtInt (mediaReply c) = inr l ∧ m ∈ l ∧
          MediaTypeID m = id ∧ Status m = "1") ∧
  (0 < OffDuration cfg →
   ∃ firstSeen, st !! id = Some firstSeen ∧
                OffDuration cfg ≤ Sub (currentTime c) firstSeen).
Proof.
  destruct (fetch (mediaReply c)) as [err|l] eqn:Hf.
  { rewrite (cycle_fetch_failed _ _ _ _ Hf). by intros ?%elem_of_nil. }
  destruct (decide (l = [])) as [->|Hne].
  { rewrite (cycle_fetched_nothing _ _ _ Hf). by intros ?%elem_of_nil. }
  rewrite (cycle_fetched _ _ _ _ Hf Hne). cbv zeta. cbn [snd].
  intros [H|H]%elem_of_app.
  - apply range_update_due in H as [(m & ? & ? & ?) (T & Hfrom & Hdue)]. split.
    + by exists l, m.
    + intros Hpos. exists T. split; [|done]. destruct Hfrom as [Hst|HT]; [done|].
      subst T. rewrite Sub_self in Hdue. lia.
  - destruct (_.1.2); [|by apply elem_of_nil in H].
    unfold saveState in H. by apply list_elem_of_singleton in H.
Qed.

(** X9.  A pass sends at most as many remote updates as the fetched list has
    disabled channels. *)
Theorem updates_bounded_by_disabled_listed cfg c st l :
  getMediaTypes fmtInt (mediaReply c) = inr l →
  (updateCount (processMediaTypes fmtInt fmtDuration sysLogger cfg c st).2 ≤
     length (filter (λ m, Status m = "1") l))%nat.
Proof.
  intros Hf. destruct (decide (l = [])) as [->|Hne].
  { by rewrite (cycle_fetched_nothing _ _ _ Hf). }
  rewrite (cycle_fetched _ _ _ _ Hf Hne). cbv zeta. cbn [snd].
  unfold updateCount. rewrite filter_app, length_app.
  pose proof (range_update_count cfg (currentTime c) (answers c) 0 l st) as H.
  unfold updateCount in H.
  destruct (_.1.2); simpl; lia.
Qed.

(** X10.  A threshold of zero or less is accepted.  For a channel that each
    fetched list has once: the pass that records it sends no remote update
    for it, and the next pass that lists it, at an instant not before the
    first, sends exactly one, however little time has passed. *)
Theorem nonpositive_threshold_enables_on_next_pass cfg c1 c2 st l1 i1 l2 i2 media :
  OffDuration cfg ≤ 0 →
  getMediaTypes fmtInt (mediaReply c1) = inr l1 → listedOnce l1 i1 media →
  getMediaTypes fmtInt (mediaReply c2) = inr l2 → listedOnce l2 i2 media →
  Status media = "1" → st !! MediaTypeID media = None →
  currentTime c1 ≤ currentTime c2 →
  let r1 := processMediaTypes fmtInt fmtDuration sysLogger cfg c1 st in
  let r2 := processMediaTypes fmtInt fmtDuration sysLogger cfg c2 r1.1 in
  updatesOf (MediaTypeID media) r1.2 = 0%nat ∧
  updatesOf (MediaTypeID media) r2.2 = 1%nat.
Proof.
  intros Hoff Hf1 Hl1 Hf2 Hl2 Hs Hst Htime. cbv zeta.
  destruct (cycle_focus cfg c1 st l1 i1 media Hf1 Hl1) as (E1 & E2 & _).
  rewrite (step_detect cfg _ _ _ _ Hs Hst) in E1, E2. cbn [fst snd] in *.
  rewrite lookup_insert_eq in E1. split.
  - rewrite E2, updatesOf_app, updatesOf_syslogWarning, updatesOf_notify. done.
  - destruct (cycle_tracked cfg c2 _ l2 i2 media (currentTime c1) Hf2 Hl2 Hs E1)
      as [_ Hdue].
    apply Hdue. pose proof (Sub_mono _ _ (currentTime c1) Htime) as Hm.
    rewrite Sub_self in Hm. lia.
Qed.

Lemma compare_with_empty_prior (current : GroupState) :
  compareGroupStates ∅ current =
    (λ entry, msgAdded (GroupName entry.2)) <$> map_to_list current.
Proof.
  unfold compareGroupStates, compareGroupStatesIn.
  rewrite map_to_list_empty, app_nil_r.
  induction (map_to_list current) as [|[id g] l IH]; [done|].
  rewrite bind_cons, IH, fmap_cons. simpl. by rewrite lookup_empty.
Qed.

(** The first pass of a process without snapshot file fails to fetch the
    groups: it returns with the empty prior and [main] sets the flag all the
    same.  The next pass to fetch them therefore reports every group it sees
    as added. *)
Lemma missed_baseline_reports_every_group cfg state0 c1 c2 err current :
  getUserGroups fmtInt (groupReply (groupCycle c1)) = inl err →
  getUserGroups fmtInt (groupReply (groupCycle c2)) = inr current →
  current ≠ ∅ →
  let p1 := (pass fmtInt fmtDuration sysLogger cfg c1 (startup state0 FileNotExist)).1 in
  groupState p1 = ∅ ∧ groupStateExisted p1 = true ∧
  (processUserGroups fmtInt sysLogger cfg (groupCycle c2) (groupState p1)
     (negb (groupStateExisted p1))).2 =
    (((λ entry, msgAdded (GroupName entry.2)) <$> map_to_list current)
       ≫= reportChange sysLogger cfg) ++
    [WriteGroupState groupStateFilename current (groupWriteErr (groupCycle c2))].
Proof.
  intros Hf1 Hf2 Hne. cbv zeta.
  assert ((pass fmtInt fmtDuration sysLogger cfg c1 (startup state0 FileNotExist)).1 =
          mkProcess (cycle cfg (mediaCycle c1) state0).1 ∅ true) as ->.
  { unfold pass, startup. simpl.
    destruct (cycle cfg (mediaCycle c1) state0) as [s out1]. simpl.
    unfold processUserGroups. by rewrite Hf1. }
  cbn [groupState groupStateExisted negb].
  split; [done|]. split; [done|].
  unfold processUserGroups. rewrite Hf2. cbv zeta.
  rewrite compare_with_empty_prior.
  rewrite decide_True; [done|].
  rewrite length_fmap. destruct (map_to_list current) eqn:Hl; [|simpl; lia].
  by apply map_to_list_empty_iff in Hl.
Qed.

Lemma updateCount_none out :
  (∀ id, MediatypeUpdate id ∉ out) → updateCount out = 0%nat.
Proof.
  unfold updateCount. induction out as [|e out IH]; intros Hno; [done|].
  rewrite filter_cons_False.
  - apply IH. intros id Hin. apply (Hno id). by right.
  - destruct e; try done. exfalso. eapply Hno. by left.
Qed.

(** X23.  Unless the state file decodes, the loop starts without any entry,
    whatever the file held.  With a positive threshold the first pass then
    sends no remote update at all, and a channel it lists as disabled, even
    one that was long overdue before the restart, is recorded anew with the
    instant of that pass. *)
Theorem unreadable_state_file_restarts_tracking cfg f c l i media :
  (∀ content, f ≠ StateDecoded content) →
  0 < OffDuration cfg →
  getMediaTypes fmtInt (mediaReply c) = inr l → listedOnce l i media →
  Status media = "1" →
  let r := processMediaTypes fmtInt fmtDuration sysLogger cfg c (initialState f) in
  initialState f = ∅ ∧
  r.1 !! MediaTypeID media = Some (currentTime c) ∧
  updateCount r.2 = 0%nat.
Proof.
  intros Hf Hpos Hfetch Hl Hs. cbv zeta.
  assert (initialState f = ∅) as -> by (destruct f; try done; by destruct (Hf content)).
  split; [done|].
  destruct (cycle_focus cfg c ∅ l i media Hfetch Hl) as (E1 & _ & _).
  rewrite (step_detect cfg _ _ _ _ Hs (lookup_empty _)) in E1. cbn [fst] in E1.
  split; [by rewrite E1, lookup_insert_eq|].
  apply updateCount_none. intros id Hin.
  assert (l ≠ []) as Hne by (destruct Hl as [Hi _]; by destruct l).
  rewrite (cycle_fetched _ _ _ _ Hfetch Hne) in Hin. cbv zeta in Hin. cbn [snd] in Hin.
  apply elem_of_app in Hin as [Hin|Hin].
  - apply range_update_due in Hin as [_ (T & [Hst|HT] & Hdue)].
    + by rewrite lookup_empty in Hst.
    + subst T. rewrite Sub_self in Hdue. lia.
  - destruct (_.1.2); [|by apply elem_of_nil in Hin].
    unfold saveState in Hin. by apply list_elem_of_singleton in Hin.
Qed.

(** ** More on the group engine *)

(** X11.  [stringSlicesEqual] decides equality of the two slices, element by
    element and in order. *)
Theorem stringSlicesEqual_decides_equality a b :
  (stringSlicesEqual a b = true ↔ a = b) ∧
  (stringSlicesEqual a b = false ↔ a ≠ b).
Proof.
  pose proof (stringSlicesEqual_eq a b) as H. split; [done|].
  destruct (stringSlicesEqual a b); split; try done.
  - intros Hne. exfalso. by apply Hne, H.
  - intros _ Heq. by apply H in Heq.
Qed.

Lemma compareCurrent_self (gs : GroupState) id g :
  gs !! id = Some g → compareCurrent gs (id, g) = [].
Proof.
  intros Hg. simpl. rewrite Hg. rewrite decide_False by (by intros ?).
  by rewrite (proj2 (stringSlicesEqual_eq _ _) eq_refl).
Qed.

Lemma comparePrevious_self (gs : GroupState) id g :
  gs !! id = Some g → comparePrevious gs (id, g) = [].
Proof. intros Hg. simpl. by rewrite Hg. Qed.

Lemma bind_nil_all {A B} (f : A → list B) (l : list A) :
  (∀ x, x ∈ l → f x = []) → l ≫= f = [].
Proof.
  induction l as [|x l IH]; intros Hall; [done|].
  rewrite bind_cons, Hall by (by left). apply IH. intros. apply Hall. by right.
Qed.

Lemma compare_self (gs : GroupState) : compareGroupStates gs gs = [].
Proof.
  unfold compareGroupStates, compareGroupStatesIn.
  rewrite !bind_nil_all; [done| |].
  - intros [id g] Hin%elem_of_map_to_list. by apply comparePrevious_self.
  - intros [id g] Hin%elem_of_map_to_list. by apply compareCurrent_self.
Qed.

(** X12.  Over states keyed by id the diff is empty exactly when the two states
    are the same map, whatever order the two maps are ranged over in. *)
Theorem empty_diff_iff_same_state prev curr orderCurr orderPrev :
  keyedByID prev → keyedByID curr →
  orderCurr ≡ₚ map_to_list curr → orderPrev ≡ₚ map_to_list prev →
  compareGroupStatesIn orderCurr orderPrev prev curr = [] ↔ prev = curr.
Proof.
  intros Hkp Hkc Hoc Hop. split.
  - intros Hnil. apply no_changes_same; [done..|].
    apply Permutation_nil_r. rewrite <- Hnil.
    unfold compareGroupStates, compareGroupStatesIn. by rewrite Hoc, Hop.
  - intros ->. unfold compareGroupStatesIn.
    rewrite !bind_nil_all; [done| |].
    + intros [id g] Hin. rewrite Hop in Hin. apply elem_of_map_to_list in Hin.
      by apply comparePrevious_self.
    + intros [id g] Hin. rewrite Hoc in Hin. apply elem_of_map_to_list in Hin.
      by apply compareCurrent_self.
Qed.

Lemma foldl_insert_lookup (result : list RawGroup) (init : GroupState) id :
  foldl (λ (state : GroupState) g,
           <[rawID g := mkUserGroup (rawID g) (rawName g)
                          (sortStrings (rawUsers g))]> state) init result !! id =
    match last (filter (λ rg, rawID rg = id) result) with
    | Some rg => Some (storedGroup rg)
    | None => init !! id
    end.
Proof.
  induction result as [|rg result IH] using rev_ind; [done|].
  rewrite foldl_app, filter_app. simpl.
  destruct (decide (rawID rg = id)) as [<-|Hne].
  - rewrite filter_cons_True by done. rewrite filter_nil, last_snoc.
    by rewrite lookup_insert_eq.
  - rewrite filter_cons_False by done. rewrite filter_nil, app_nil_r.
    by rewrite lookup_insert_ne.
Qed.

(** X13.  A reply without error code always gives a state.  Under an id the state
    holds the last group of the reply with that id (a repeated id overrides
    the earlier group) and nothing under an id the reply does not have; the
    stored group carries its own id, its name, and its members sorted, the
    same members as in the reply. *)
Theorem getUserGroups_holds_last_group_per_id result message data :
  ∃ gs, getUserGroups fmtInt (Decoded result 0 message data) = inr gs ∧
    (∀ id, gs !! id = storedGroup <$> last (filter (λ rg, rawID rg = id) result)) ∧
    (∀ rg, ID (storedGroup rg) = rawID rg ∧ GroupName (storedGroup rg) = rawName rg ∧
           Sorted string_le (Users (storedGroup rg)) ∧
           Users (storedGroup rg) ≡ₚ rawUsers rg).
Proof.
  eexists. split; [reflexivity|]. split.
  - intros id. rewrite foldl_insert_lookup, lookup_empty.
    by destruct (last _).
  - intros rg. repeat split; [apply sortStrings_Sorted|apply sortStrings_Permutation].
Qed.

(** X14.  Outside baseline mode, a second pass that fetches what the first one
    fetched finds nothing to report: it returns the prior the first pass
    left and has no effect. *)
Theorem second_steady_pass_is_silent cfg c prev :
  let r1 := processUserGroups fmtInt sysLogger cfg c prev false in
  processUserGroups fmtInt sysLogger cfg c r1.1 false = (r1.1, []).
Proof.
  cbv zeta. unfold processUserGroups.
  destruct (getUserGroups fmtInt (groupReply c)) as [err|current]; [done|].
  destruct (decide (0 < length (compareGroupStates prev current))%nat) as [Hch|Hch];
    cbn [fst].
  - rewrite rebuild_is_current, compare_self. by rewrite decide_False by (simpl; lia).
  - by rewrite decide_False by done.
Qed.

Lemma postsOf_app out1 out2 : postsOf (out1 ++ out2) = postsOf out1 ++ postsOf out2.
Proof. apply filter_app. Qed.

Lemma postsOf_reports cfg (changes : list string) :
  MattermostWebhook cfg ≠ "" →
  postsOf (changes ≫= reportChange sysLogger cfg) =
    (λ ch, MattermostPost (MattermostWebhook cfg) ("Изменения в UserGroup: " +:+ ch))
      <$> changes.
Proof.
  intros Hw. induction changes as [|ch chs IH]; [done|].
  rewrite bind_cons, postsOf_app, IH, fmap_cons. unfold reportChange.
  rewrite postsOf_app, (notifyIfWebhook_configured _ _ Hw).
  unfold syslogWarning. by destruct sysLogger.
Qed.

(** X15.  With a webhook configured, a pass outside baseline mode posts each
    change description in a message of its own, in the order of the diff. *)
Theorem each_change_is_posted_separately cfg c prev current :
  getUserGroups fmtInt (groupReply c) = inr current →
  MattermostWebhook cfg ≠ "" →
  postsOf (processUserGroups fmtInt sysLogger cfg c prev false).2 =
    (λ ch, MattermostPost (MattermostWebhook cfg) ("Изменения в UserGroup: " +:+ ch))
      <$> compareGroupStates prev current.
Proof.
  intros Hf Hw. unfold processUserGroups. rewrite Hf.
  destruct (decide (0 < length (compareGroupStates prev current))%nat) as [Hch|Hch];
    cbn [snd].
  - rewrite postsOf_app, (postsOf_reports _ _ Hw). unfold saveGroupState.
    by rewrite app_nil_r.
  - destruct (compareGroupStates prev current); [done|simpl in Hch; lia].
Qed.

(** ** The poll loop *)

Lemma mainLoop_cons cfg c rest p :
  mainLoop fmtInt fmtDuration sysLogger cfg (c :: rest) p =
    let r1 := pass fmtInt fmtDuration sysLogger cfg c p in
    let r2 := mainLoop fmtInt fmtDuration sysLogger cfg rest r1.1 in
    (r2.1, r1.2 :: r2.2).
Proof.
  simpl. destruct (pass _ _ _ _ _ _) as [p1 out]. simpl.
  by destruct (mainLoop _ _ _ _ _ _) as [p2 outs].
Qed.

Lemma pass_fields cfg c p :
  let r := pass fmtInt fmtDuration sysLogger cfg c p in
  let g := processUserGroups fmtInt sysLogger cfg (groupCycle c) (groupState p)
             (negb (groupStateExisted p)) in
  state r.1 = (cycle cfg (mediaCycle c) (state p)).1 ∧
  groupState r.1 = g.1 ∧ groupStateExisted r.1 = true ∧
  r.2 = (cycle cfg (mediaCycle c) (state p)).2 ++ g.2.
Proof.
  cbv zeta. unfold pass. destruct (cycle _ _ _) as [s out1].
  destruct (processUserGroups _ _ _ _ _ _) as [gs out2]. simpl.
  by destruct (groupStateExisted p).
Qed.

Lemma pass_prior cfg c p :
  priorInvariant p →
  let p1 := (pass fmtInt fmtDuration sysLogger cfg c p).1 in
  priorInvariant p1 ∧
  groupState p1 = match getUserGroups fmtInt (groupReply (groupCycle c)) with
                  | inr current => current
                  | inl _ => groupState p
                  end.
Proof.
  intros [Hk Hempty]. cbv zeta.
  destruct (pass_fields cfg c p) as (_ & Hg & He & _).
  assert (groupState (pass fmtInt fmtDuration sysLogger cfg c p).1 =
          match getUserGroups fmtInt (groupReply (groupCycle c)) with
          | inr current => current
          | inl _ => groupState p
          end) as Hstate.
  { rewrite Hg. unfold processUserGroups.
    destruct (getUserGroups fmtInt (groupReply (groupCycle c))) as [err|current] eqn:Hf;
      [done|].
    destruct (groupStateExisted p); cbn [negb].
    - destruct (decide (0 < length (compareGroupStates (groupState p) current))%nat)
        as [Hch|Hch]; cbn [fst]; [apply rebuild_is_current|].
      apply no_changes_same; [done|by eapply getUserGroups_keyedByID|].
      destruct (compareGroupStates _ _); [done|simpl in Hch; lia].
    - cbn [fst]. rewrite Hempty by done. rewrite copyInto_union.
      by rewrite (right_id_L ∅ (∪)). }
  split; [|done]. split.
  - rewrite Hstate.
    destruct (getUserGroups fmtInt (groupReply (groupCycle c))) as [err|current] eqn:Hf;
      [done|by eapply getUserGroups_keyedByID].
  - intros Hfalse. by rewrite He in Hfalse.
Qed.

(** X16.  Started with a prior keyed by id (empty when baseline is pending), the
    loop keeps the in-memory prior equal to the groups of the last pass that
    fetched them; as long as no pass has fetched them it is the prior the
    loop started with.  This is so whether or not the baseline pass was the
    one that fetched first. *)
Theorem prior_mirrors_last_observation cfg cycles p :
  priorInvariant p →
  groupState (mainLoop fmtInt fmtDuration sysLogger cfg cycles p).1 =
    default (groupState p) (lastObservation fmtInt cycles).
Proof.
  revert p. induction cycles as [|c cycles IH]; intros p Hp; [done|].
  rewrite mainLoop_cons. cbv zeta. cbn [fst].
  destruct (pass_prior cfg c p Hp) as [Hp1 Hg]. rewrite (IH _ Hp1). simpl.
  destruct (lastObservation fmtInt cycles) as [gs|]; [done|]. simpl. rewrite Hg.
  by destruct (getUserGroups fmtInt (groupReply (groupCycle c))).
Qed.

(** X17.  A snapshot file that exists but cannot be read or decoded is taken as
    missing, whatever it held: the loop starts from the variables it starts
    from without a file, empty prior and baseline pending.  So when the
    first pass fetches the groups, it writes them as the new snapshot, takes
    them as prior and reports nothing. *)
Theorem unreadable_snapshot_is_rebaselined cfg state0 f c current :
  ((∃ err, f = StatError err) ∨ (∃ err, f = OpenError err) ∨
   (∃ err, f = ReadError err) ∨ (∃ partial err, f = UnmarshalError partial err)) →
  getUserGroups fmtInt (groupReply (groupCycle c)) = inr current →
  let r := pass fmtInt fmtDuration sysLogger cfg c (startup state0 f) in
  startup state0 f = startup state0 FileNotExist ∧
  groupState r.1 = current ∧
  r.2 = (processMediaTypes fmtInt fmtDuration sysLogger cfg (mediaCycle c) state0).2 ++
        [WriteGroupState groupStateFilename current (groupWriteErr (groupCycle c))].
Proof.
  intros Hf Hfetch. cbv zeta.
  assert (startup state0 f = mkProcess state0 ∅ false) as ->.
  { by destruct Hf as [[e ->]|[[e ->]|[[e ->]|(pa & e & ->)]]]. }
  split; [done|].
  destruct (pass_fields cfg c (mkProcess state0 ∅ false)) as (_ & Hg & _ & Hout).
  rewrite Hg, Hout. cbn [groupState groupStateExisted state negb].
  unfold processUserGroups. rewrite Hfetch. cbn [fst snd].
  split; [|done]. rewrite copyInto_union. by rewrite (right_id_L ∅ (∪)).
Qed.

(** X18.  A snapshot file that exists but is empty counts as a snapshot without
    groups: no baseline is taken, and the first pass to fetch the groups
    reports every one of them as added before writing the snapshot. *)
Theorem empty_snapshot_file_reports_all_groups cfg state0 f c current :
  f = FileSizeZero ∨ f = ReadNothing →
  getUserGroups fmtInt (groupReply (groupCycle c)) = inr current →
  current ≠ ∅ →
  let r := pass fmtInt fmtDuration sysLogger cfg c (startup state0 f) in
  groupState r.1 = current ∧
  r.2 = (processMediaTypes fmtInt fmtDuration sysLogger cfg (mediaCycle c) state0).2 ++
        (((λ entry, msgAdded (GroupName entry.2)) <$> map_to_list current)
           ≫= reportChange sysLogger cfg) ++
        [WriteGroupState groupStateFilename current (groupWriteErr (groupCycle c))].
Proof.
  intros Hf Hfetch Hne. cbv zeta.
  assert (startup state0 f = mkProcess state0 ∅ true) as ->
    by (by destruct Hf as [->| ->]).
  destruct (pass_fields cfg c (mkProcess state0 ∅ true)) as (_ & Hg & _ & Hout).
  rewrite Hg, Hout. cbn [groupState groupStateExisted state negb].
  unfold processUserGroups. rewrite Hfetch. cbv zeta.
  rewrite compare_with_empty_prior.
  rewrite decide_True.
  - cbn [fst snd]. split; [apply rebuild_is_current|done].
  - rewrite length_fmap. destruct (map_to_list current) eqn:Hl; [|simpl; lia].
    by apply map_to_list_empty_iff in Hl.
Qed.

End Properties.

(** * Alerting is observation only *)

Section Alerts.

Variable fmtInt : Z → string.
Variable fmtDuration : Duration → string.

Lemma durable_app out1 out2 :
  durableEffects (out1 ++ out2) = durableEffects out1 ++ durableEffects out2.
Proof. apply filter_app. Qed.

Lemma durable_syslogWarning sys line : durableEffects (syslogWarning sys line) = [].
Proof. unfold syslogWarning. by destruct sys. Qed.

Lemma durable_syslogInfo sys line : durableEffects (syslogInfo sys line) = [].
Proof. unfold syslogInfo. by destruct sys. Qed.

Lemma durable_notify cfg msg : durableEffects (notifyIfWebhook cfg msg) = [].
Proof.
  unfold notifyIfWebhook, sendMattermostNotification. by repeat case_decide.
Qed.

Lemma processMedia_alert_blind sys sys' cfg w now a media st :
  let r := processMedia fmtInt fmtDuration sys (withWebhook cfg w) now a media st in
  let r' := processMedia fmtInt fmtDuration sys' cfg now a media st in
  r.1 = r'.1 ∧ durableEffects r.2 = durableEffects r'.2.
Proof.
  cbv zeta.
  destruct (decide (Status media = "1")) as [Hs|Hs];
    destruct (st !! MediaTypeID media) as [firstSeen|] eqn:Hl.
  - destruct (Z.le_gt_cases (OffDuration cfg) (Sub now firstSeen)) as [Hd|Hd].
    + destruct ((enableMediaType fmtInt (MediaTypeID media) (enableReply a)).2)
        as [err|] eqn:He.
      * rewrite (step_enable_failed fmtInt fmtDuration sys (withWebhook cfg w)
                   _ _ _ _ _ _ Hs Hl Hd He).
        rewrite (step_enable_failed fmtInt fmtDuration sys' cfg _ _ _ _ _ _ Hs Hl Hd He).
        split; [done|]. cbn [snd].
        by rewrite !durable_app, !durable_syslogWarning, !durable_notify.
      * rewrite (step_enable_ok fmtInt fmtDuration sys (withWebhook cfg w)
                   _ _ _ _ _ Hs Hl Hd He).
        rewrite (step_enable_ok fmtInt fmtDuration sys' cfg _ _ _ _ _ Hs Hl Hd He).
        split; [done|]. cbn [snd].
        by rewrite !durable_app, !durable_syslogWarning, !durable_syslogInfo,
             !durable_notify.
    + rewrite (step_waiting fmtInt fmtDuration sys (withWebhook cfg w) _ _ _ _ _ Hs Hl Hd).
      rewrite (step_waiting fmtInt fmtDuration sys' cfg _ _ _ _ _ Hs Hl Hd).
      split; [done|]. cbn [snd]. destruct (Minutes_ge_30 _); [|done].
      by rewrite !durable_notify.
  - rewrite (step_detect fmtInt fmtDuration sys (withWebhook cfg w) _ _ _ _ Hs Hl).
    rewrite (step_detect fmtInt fmtDuration sys' cfg _ _ _ _ Hs Hl).
    split; [done|]. cbn [snd].
    by rewrite !durable_app, !durable_syslogWarning, !durable_notify.
  - rewrite (step_restored fmtInt fmtDuration sys (withWebhook cfg w) _ _ _ _ _ Hs Hl).
    rewrite (step_restored fmtInt fmtDuration sys' cfg _ _ _ _ _ Hs Hl).
    split; [done|]. cbn [snd]. by rewrite !durable_notify.
  - rewrite (step_healthy fmtInt fmtDuration sys (withWebhook cfg w) _ _ _ _ Hs Hl).
    by rewrite (step_healthy fmtInt fmtDuration sys' cfg _ _ _ _ Hs Hl).
Qed.

Lemma rangeMediaTypes_alert_blind sys sys' cfg w now ans i l st :
  let r := rangeMediaTypes fmtInt fmtDuration sys (withWebhook cfg w) now ans i l st in
  let r' := rangeMediaTypes fmtInt fmtDuration sys' cfg now ans i l st in
  r.1 = r'.1 ∧ durableEffects r.2 = durableEffects r'.2.
Proof.
  cbv zeta. revert i st. induction l as [|m l IH]; intros i st; [done|].
  rewrite !range_cons. cbv zeta.
  destruct (processMedia_alert_blind sys sys' cfg w now (ans i) m st) as [E1 E2].
  rewrite E1.
  destruct (IH (S i) (processMedia fmtInt fmtDuration sys' cfg now (ans i) m st).1.1)
    as [E3 E4].
  rewrite E3. split; [done|]. cbn [snd]. by rewrite !durable_app, E2, E4.
Qed.

Lemma processMediaTypes_alert_blind sys sys' cfg w c st :
  let r := processMediaTypes fmtInt fmtDuration sys (withWebhook cfg w) c st in
  let r' := processMediaTypes fmtInt fmtDuration sys' cfg c st in
  r.1 = r'.1 ∧ durableEffects r.2 = durableEffects r'.2.
Proof.
  cbv zeta. destruct (getMediaTypes fmtInt (mediaReply c)) as [err|l] eqn:Hf.
  - by rewrite !(cycle_fetch_failed _ _ _ _ _ _ _ Hf).
  - destruct (decide (l = [])) as [->|Hl];
      [by rewrite !(cycle_fetched_nothing _ _ _ _ _ _ Hf)|].
    rewrite !(cycle_fetched _ _ _ _ _ _ _ Hf) by done. cbv zeta.
    destruct (rangeMediaTypes_alert_blind sys sys' cfg w (currentTime c) (answers c)
                0 l st) as [E1 E2].
    rewrite E1. split; [done|]. cbn [snd]. by rewrite !durable_app, E2.
Qed.

Lemma durable_reports sys cfg (changes : list string) :
  durableEffects (changes ≫= reportChange sys cfg) = [].
Proof.
  induction changes as [|ch chs IH]; [done|].
  rewrite bind_cons, durable_app, IH. unfold reportChange.
  by rewrite durable_app, durable_syslogWarning, durable_notify.
Qed.

Lemma processUserGroups_alert_blind sys sys' cfg w c prev baselineMode :
  let r := processUserGroups fmtInt sys (withWebhook cfg w) c prev baselineMode in
  let r' := processUserGroups fmtInt sys' cfg c prev baselineMode in
  r.1 = r'.1 ∧ durableEffects r.2 = durableEffects r'.2.
Proof.
  cbv zeta. unfold processUserGroups.
  destruct (getUserGroups fmtInt (groupReply c)) as [err|current]; [done|].
  destruct baselineMode; [done|].
  destruct (decide _); [|done]. cbn [fst snd].
  by rewrite !durable_app, !durable_reports.
Qed.

(** X19.  Two runs of the poll loop on the same answers of the world, one with
    syslog and webhook set up one way, the other another way: the variables
    of [main] after the passes are the same, and so are, pass by pass and in
    order, the remote updates and the file writes.  Whether and where alerts
    go changes nothing else. *)
Theorem alerting_never_steers_the_loop sys sys' cfg w cycles p :
  let r := mainLoop fmtInt fmtDuration sys (withWebhook cfg w) cycles p in
  let r' := mainLoop fmtInt fmtDuration sys' cfg cycles p in
  r.1 = r'.1 ∧ durableEffects <$> r.2 = durableEffects <$> r'.2.
Proof.
  cbv zeta. revert p. induction cycles as [|c cycles IH]; intros p; [done|].
  rewrite !mainLoop_cons. cbv zeta. cbn [fst snd].
  assert ((pass fmtInt fmtDuration sys (withWebhook cfg w) c p).1 =
          (pass fmtInt fmtDuration sys' cfg c p).1 ∧
          durableEffects (pass fmtInt fmtDuration sys (withWebhook cfg w) c p).2 =
          durableEffects (pass fmtInt fmtDuration sys' cfg c p).2) as [E1 E2].
  { destruct (pass_fields fmtInt fmtDuration sys (withWebhook cfg w) c p)
      as (A1 & A2 & A3 & A4).
    destruct (pass_fields fmtInt fmtDuration sys' cfg c p) as (B1 & B2 & B3 & B4).
    destruct (processMediaTypes_alert_blind sys sys' cfg w (mediaCycle c) (state p))
      as [M1 M2].
    destruct (processUserGroups_alert_blind sys sys' cfg w (groupCycle c)
                (groupState p) (negb (groupStateExisted p))) as [G1 G2].
    split.
    - destruct (pass fmtInt fmtDuration sys (withWebhook cfg w) c p).1 as [s gs e].
      destruct (pass fmtInt fmtDuration sys' cfg c p).1 as [s' gs' e'].
      cbn [state groupState groupStateExisted] in *. congruence.
    - rewrite A4, B4, !durable_app. congruence. }
  rewrite E1. destruct (IH (pass fmtInt fmtDuration sys' cfg c p).1) as [E3 E4].
  split; [done|]. rewrite !fmap_cons. by rewrite E2, E4.
Qed.

End Alerts.

(** * Configuration *)

Section LoadConfigProperties.

Variable Atoi : string → string + Z.
Variable TrimSpace : string → string.

Lemma int64_exact z : int64 z = z ↔ - 2 ^ 63 ≤ z < 2 ^ 63.
Proof.
  unfold int64. split.
  - intros H. pose proof (Z.mod_pos_bound (z + 2 ^ 63) (2 ^ 64) ltac:(lia)). lia.
  - intros H. rewrite Z.mod_small by lia. lia.
Qed.

(** X20.  Both intervals are taken as whole minutes and are not validated: every
    integer is accepted, zero and negative ones included.  The duration
    stored is the number of minutes exactly when that number is at most
    153722867 in absolute value (some 292 years); beyond, the 64-bit
    product wraps around. *)
Theorem loadConfig_takes_any_minutes Getenv checkInterval offDuration :
  Atoi (Getenv "MEDIA_CHECK_INTERVAL") = inr checkInterval →
  Atoi (Getenv "MEDIA_OFF_DURATION") = inr offDuration →
  ∃ cfg, loadConfig Atoi TrimSpace Getenv = inr cfg ∧
    (CheckInterval cfg = checkInterval * Minute ↔
       -153722867 ≤ checkInterval ≤ 153722867) ∧
    (OffDuration cfg = offDuration * Minute ↔
       -153722867 ≤ offDuration ≤ 153722867).
Proof.
  intros Hci Hod. unfold loadConfig. rewrite Hci, Hod.
  eexists. split; [reflexivity|]. cbn [CheckInterval OffDuration].
  rewrite !int64_exact. unfold Minute, Second. lia.
Qed.

Lemma trimRightSlash_spec s :
  (∃ k, s = trimRightSlash s +:+ slashes k) ∧
  (∀ t, trimRightSlash s ≠ t +:+ "/").
Proof.
  induction s as [|a rest [[k Hk] Hend]].
  - split; [by exists 0%nat|]. by intros [|b t].
  - simpl. destruct (trimRightSlash rest) as [|b kept] eqn:Htrim.
    + simpl in Hk. destruct (Ascii.eqb_spec a slash) as [->|Hne].
      * split; [exists (S k); simpl; by rewrite Hk|]. by intros [|b t].
      * split; [exists k; simpl; by rewrite Hk|].
        intros [|b t]; simpl; [by intros [= ->]|]. intros [= _ Ht]. by destruct t.
    + split; [exists k; simpl; by rewrite Hk at 1|].
      intros [|c t]; simpl; [done|]. intros [= _ Ht]. by apply (Hend t).
Qed.

(** X21.  The address of the server is [ZABBIX_API_URL] without its trailing
    slashes, however many it has, so the address the calls are posted to
    has a single slash before [api_jsonrpc.php]. *)
Theorem loadConfig_cuts_trailing_slashes Getenv cfg :
  loadConfig Atoi TrimSpace Getenv = inr cfg →
  (∃ k, Getenv "ZABBIX_API_URL" = ZabbixAPIURL cfg +:+ slashes k) ∧
  (∀ t, ZabbixAPIURL cfg ≠ t +:+ "/") ∧
  apiEndpoint cfg = trimRightSlash (Getenv "ZABBIX_API_URL") +:+ "/api_jsonrpc.php".
Proof.
  unfold loadConfig. destruct (Atoi _); [done|]. destruct (Atoi _); [done|].
  intros [= <-]. unfold apiEndpoint. cbn [ZabbixAPIURL].
  destruct (trimRightSlash_spec (Getenv "ZABBIX_API_URL")) as [Hk Hend]. done.
Qed.

Lemma splitComma_nonempty s : splitComma s ≠ [].
Proof.
  destruct s as [|a rest]; [done|]. simpl.
  destruct (Ascii.eqb a comma); [done|]. by destruct (splitComma rest).
Qed.

Lemma splitComma_join s : String.concat "," (splitComma s) = s.
Proof.
  induction s as [|a rest IH]; [done|]. simpl.
  pose proof (splitComma_nonempty rest) as Hne.
  destruct (Ascii.eqb_spec a comma) as [->|Ha].
  - destruct (splitComma rest) as [|part parts]; [done|].
    change (String.concat "," (EmptyString :: part :: parts))
      with (String comma (String.concat "," (part :: parts))).
    by rewrite IH.
  - destruct (splitComma rest) as [|part parts]; [done|].
    rewrite <- IH. by destruct parts.
Qed.

Lemma splitComma_parts s part :
  part ∈ splitComma s → comma ∉ String.list_ascii_of_string part.
Proof.
  revert part. induction s as [|a rest IH]; intros part.
  - simpl. intros ->%list_elem_of_singleton. apply not_elem_of_nil.
  - simpl. destruct (Ascii.eqb_spec a comma) as [->|Ha].
    + intros [->|Hin]%elem_of_cons; [apply not_elem_of_nil|by apply IH].
    + pose proof (splitComma_nonempty rest) as Hne.
      destruct (splitComma rest) as [|p0 parts]; [done|].
      intros [->|Hin]%elem_of_cons.
      * simpl. rewrite not_elem_of_cons. split; [congruence|]. apply IH. by left.
      * apply IH. by right.
Qed.

(** X22.  The names to watch: none when [MEDIA_NAMES] is blank; otherwise the
    trimmed value is cut at every comma and each piece is trimmed again, so
    there is one name per piece, empty pieces included. *)
Theorem loadConfig_names_are_comma_separated Getenv cfg :
  loadConfig Atoi TrimSpace Getenv = inr cfg →
  let s := TrimSpace (Getenv "MEDIA_NAMES") in
  (s = "" → MediaNames cfg = []) ∧
  (s ≠ "" →
   ∃ parts, MediaNames cfg = TrimSpace <$> parts ∧ parts ≠ [] ∧
            String.concat "," parts = s ∧
            ∀ part, part ∈ parts → comma ∉ String.list_ascii_of_string part).
Proof.
  unfold loadConfig. destruct (Atoi _); [done|]. destruct (Atoi _); [done|].
  intros [= <-]. cbv zeta. cbn [MediaNames]. split.
  - intros ->. by rewrite decide_False by (by intros ?).
  - intros Hs. rewrite decide_True by done.
    exists (splitComma (TrimSpace (Getenv "MEDIA_NAMES"))).
    split; [done|]. split; [apply splitComma_nonempty|].
    split; [apply splitComma_join|]. intros part. apply splitComma_parts.
Qed.

End LoadConfigProperties.

(** * The properties on concrete runs *)

Lemma listedOnce_single m : listedOnce [m] 0 m.
Proof. split; [done|]. intros [|j] m' H; [done|]. by destruct j. Qed.

(** C1 (defect in [main]).  A process starts without snapshot file.  In its
    first pass the fetch of the groups fails; in its second pass the fetch
    succeeds and returns one group.  [main] has set [groupStateExisted] after
    the first pass although no baseline was taken, so the second pass, the
    first to see the groups, runs the diff against the empty prior: it
    reports the group as added on syslog and on the webhook instead of
    taking it as baseline in silence. *)
Lemma C1_failed_first_fetch_skips_baseline :
  let p0 := startup ∅ FileNotExist in
  let passes := [mkCycle (cycleRefused 0) groupsDown;
                 mkCycle (cycleRefused 5) groupsSeen] in
  let r := mainLoop showInt showWholeMinutes true exCfg passes p0 in
  groupStateExisted p0 = false ∧
  getUserGroups showInt (groupReply groupsSeen) = inr adminsStored ∧
  r.2 = [[];
         [SyslogWarning "UserGroup change detected: Добавлена группа: Admins ";
          MattermostPost (MattermostWebhook exCfg)
            "Изменения в UserGroup: Добавлена группа: Admins ";
          WriteGroupState groupStateFilename adminsStored None]].
Proof. by vm_compute. Qed.

(** C2, as stated, fails: tracked since instant 0 with a threshold of 60
    minutes, the channel stays disabled and the remote enable fails at minute
    61; the pass at minute 62 tries again.  Two attempts, not one. *)
Lemma C2_counterexample :
  let cycles := [cycleAt 61 [email] enableDown; cycleAt 62 [email] enableDown] in
  let r := mediaRuns showInt showWholeMinutes true exCfg cycles emailTracked in
  emailTracked !! "7" = Some 0 ∧
  Forall (λ c, 0 + OffDuration exCfg ≤ currentTime c ∧
               getMediaTypes showInt (mediaReply c) = inr [email]) cycles ∧
  updatesOf "7" (concat r.2) = 2%nat ∧
  updatesOf "7" (concat r.2) ≠ 1%nat.
Proof.
  cbv zeta. split; [done|]. split; [|by vm_compute].
  repeat constructor; by vm_compute.
Qed.

(** C8, as stated, fails: tracked since instant 0, the channel is 31 minutes
    into a threshold of 60.  The pass posts the reminder; the same pass run
    again at the same instant on the state the first one left posts it
    again. *)
Lemma C8_counterexample :
  let c := cycleAt 31 [email] enableOk in
  let r1 := processMediaTypes showInt showWholeMinutes true exCfg c emailTracked in
  let r2 := processMediaTypes showInt showWholeMinutes true exCfg c r1.1 in
  r2.2 = [MattermostPost (MattermostWebhook exCfg)
            (msgReminder showWholeMinutes "Email" (31 * Minute) (29 * Minute))] ∧
  ¬ (r2.1 = r1.1 ∧ r2.2 = []).
Proof.
  cbv zeta. split; [by vm_compute|]. intros [_ H]. by vm_compute in H.
Qed.


(** C4, as stated, fails: the server lists user "1" once in the group, then
    twice.  Both states are as [getUserGroups] stores them; the members are
    the same set, yet the diff reports a membership change. *)
Lemma C4_counterexample :
  getUserGroups showInt (Decoded [mkRawGroup "5" "Admins" ["1"]] 0 "" "")
    = inr adminsOnce ∧
  getUserGroups showInt (Decoded [mkRawGroup "5" "Admins" ["1"; "1"]] 0 "" "")
    = inr adminsTwice ∧
  (∀ p cur, adminsOnce !! "5" = Some p → adminsTwice !! "5" = Some cur →
     memberSet p = memberSet cur) ∧
  membershipChangesAsSets adminsOnce adminsTwice = [] ∧
  compareGroupStates adminsOnce adminsTwice =
    ["Изменён состав пользователей в группе Admins "].
Proof.
  split; [by vm_compute|]. split; [by vm_compute|]. split; [|split; by vm_compute].
  intros p cur [= <-] [= <-]. by vm_compute.
Qed.

(** The server refuses the fetch: the watch-state is returned as it was. *)
Lemma C7_witness :
  processMediaTypes showInt showWholeMinutes true exCfg (cycleRefused 5) emailTracked
    = (emailTracked, []).
Proof.
  apply (C7_fetch_failure_aborts_cycle showInt showWholeMinutes true exCfg
           (cycleRefused 5) emailTracked).
  right. right. exists [], (-32602), "Invalid params.", "Not authorized.".
  split; [reflexivity|lia].
Defined.

(** The tracked channel "7" is not in any fetched list: its entry stays. *)
Lemma C10_witness :
  let cycles := [cycleAt 5 [sms] enableOk; cycleAt 70 [] enableOk; cycleRefused 75] in
  (mediaRuns showInt showWholeMinutes true exCfg cycles emailTracked).1 !! "7" = Some 0.
Proof.
  apply (C10_absent_channel_untouched showInt showWholeMinutes true exCfg
           [cycleAt 5 [sms] enableOk; cycleAt 70 [] enableOk; cycleRefused 75]
           emailTracked "7").
  intros c l m Hc Hf Hm.
  repeat (apply elem_of_cons in Hc as [->|Hc]); [| | |by apply elem_of_nil in Hc];
    vm_compute in Hf; try discriminate; injection Hf as <-;
    [|by apply elem_of_nil in Hm].
  apply list_elem_of_singleton in Hm as ->. by vm_compute.
Defined.

(** Minute 61, the server is down for the remote enable.  The list has the
    channel twice: both entries are tried, and the second one is looked
    at. *)
Lemma C6_witness :
  let r := processMediaTypes showInt showWholeMinutes true exCfg
             (cycleAt 61 [email; email] enableDown) emailTracked in
  r.1 !! "7" = Some 0 ∧
  MattermostPost (MattermostWebhook exCfg)
    ("Ошибка включения медиа: Email" +:+ nl +:+ "Ошибка: connection refused") ∈ r.2 ∧
  MediatypeUpdate "7"
    ∈ (processMediaTypes showInt showWholeMinutes true exCfg
         (cycleAt 66 [sms; email] enableOk) r.1).2.
Proof.
  destruct (C6_failed_enable_keeps_entry showInt showWholeMinutes true exCfg
              (cycleAt 61 [email; email] enableDown) emailTracked [email; email] 1%nat
              email 0 "connection refused") as (_ & _ & Hpost & Hretry).
  - reflexivity.
  - reflexivity.
  - reflexivity.
  - by vm_compute.
  - by vm_compute.
  - reflexivity.
  - destruct Hretry as [Hkeep Hnext]; [by intros m ?%elem_of_nil|].
    cbv zeta. split; [exact Hkeep|]. split; [apply Hpost; by vm_compute|].
    apply (Hnext (cycleAt 66 [sms; email] enableOk) [sms; email] 1%nat email).
    + reflexivity.
    + reflexivity.
    + reflexivity.
    + reflexivity.
    + intros m ->%list_elem_of_singleton. by vm_compute.
    + by vm_compute.
Defined.


(** Minute 10: too early.  Minute 61: the fetch is refused.  Minute 62: the
    enable fails.  Minute 67: the enable succeeds and the entry goes. *)
Lemma C2_witness :
  let pre := [cycleAt 10 [email] enableOk; cycleRefused 61; cycleAt 62 [email] enableDown] in
  let c := cycleAt 67 [email] enableOk in
  let r := mediaRuns showInt showWholeMinutes true exCfg pre emailTracked in
  r.1 !! "7" = Some 0 ∧
  updatesOf "7" (processMediaTypes showInt showWholeMinutes true exCfg c r.1).2 = 1%nat ∧
  (processMediaTypes showInt showWholeMinutes true exCfg c r.1).1 !! "7" = None.
Proof.
  destruct (C2_attempts_from_threshold showInt showWholeMinutes true exCfg emailTracked
              email 0
              [cycleAt 10 [email] enableOk; cycleRefused 61; cycleAt 62 [email] enableDown]
              (cycleAt 67 [email] enableOk) [email] 0%nat)
    as (Hkeep & _ & Hone & Hgone & _).
  - reflexivity.
  - reflexivity.
  - by vm_compute.
  - constructor; [|constructor; [|constructor; [|constructor]]].
    + right. right. exists [email], 0%nat.
      split; [reflexivity|]. split; [apply listedOnce_single|].
      split; [by vm_compute|]. left. by vm_compute.
    + left. eexists. reflexivity.
    + right. right. exists [email], 0%nat.
      split; [reflexivity|]. split; [apply listedOnce_single|].
      split; [by vm_compute|]. right. eexists. reflexivity.
  - reflexivity.
  - apply listedOnce_single.
  - by vm_compute.
  - cbv zeta. split; [exact Hkeep|]. split; [exact Hone|]. apply Hgone. reflexivity.
Defined.

(** Minute 10 of 60, nothing due: the second pass is silent. *)
Lemma C8_witness :
  let c := cycleAt 10 [email; sms] enableOk in
  let s1 := (processMediaTypes showInt showWholeMinutes true exCfg c emailTracked).1 in
  processMediaTypes showInt showWholeMinutes true exCfg c s1 = (s1, []).
Proof.
  destruct (C8_second_pass_is_quiet showInt showWholeMinutes true exCfg
              (cycleAt 10 [email; sms] enableOk) (cycleAt 10 [email; sms] enableOk)
              emailTracked) as (Hstate & _ & Hquiet).
  - by vm_compute.
  - reflexivity.
  - reflexivity.
  - intros l [= <-]. apply (bool_decide_unpack _). by vm_compute.
  - intros l m firstSeen [= <-] Hm Hs Hl.
    apply elem_of_cons in Hm as [->|Hm]; [|apply list_elem_of_singleton in Hm as ->; done].
    vm_compute in Hl. injection Hl as <-. by vm_compute.
  - cbv zeta. apply injective_projections; [exact Hstate|]. apply Hquiet.
    + intros j. reflexivity.
    + intros l m firstSeen [= <-] Hm Hs Hl.
      apply elem_of_cons in Hm as [->|Hm]; [|apply list_elem_of_singleton in Hm as ->; done].
      vm_compute in Hl. injection Hl as <-. by vm_compute.
Defined.

(** The synthetic pair, both maps ranged over in reverse. *)
Lemma C4_witness :
  compareGroupStatesIn (reverse (map_to_list synthCurr)) (reverse (map_to_list synthPrev))
    synthPrev synthCurr ≡ₚ
  addedChanges synthPrev synthCurr ++ renamedChanges synthPrev synthCurr ++
  membershipChanges synthPrev synthCurr ++ removedChanges synthPrev synthCurr.
Proof.
  destruct (C4_diff_reports_each_change showInt synthPrev synthCurr
              (reverse (map_to_list synthCurr)) (reverse (map_to_list synthPrev)))
    as (Hperm & _).
  - apply (bool_decide_unpack _). by vm_compute.
  - apply (bool_decide_unpack _). by vm_compute.
  - apply reverse_Permutation.
  - apply reverse_Permutation.
  - exact Hperm.
Defined.

(** The synthetic pair through [processUserGroups]. *)
Lemma C5_witness :
  let r := processUserGroups showInt true exCfg synthSeen synthPrev false in
  r.1 = synthCurr ∧
  WriteGroupState groupStateFilename synthCurr None ∈ r.2.
Proof.
  destruct (C5_steady_pass_mirrors_observation showInt true exCfg synthSeen
              synthPrev synthCurr) as (Hmirror & Hout & _).
  - by vm_compute.
  - apply (bool_decide_unpack _). by vm_compute.
  - cbv zeta. split; [exact Hmirror|]. rewrite Hout by (by vm_compute).
    apply elem_of_app. right. by apply list_elem_of_singleton.
Defined.

(** * The further properties on concrete runs *)

Lemma restored_channel_is_dropped_witness :
  let r := processMediaTypes showInt showWholeMinutes true exCfg
             (cycleAt 20 [emailRestored] enableOk) emailTracked in
  r.1 !! "7" = None ∧ updatesOf "7" r.2 = 0%nat.
Proof.
  destruct (restored_channel_is_dropped showInt showWholeMinutes true exCfg
              (cycleAt 20 [emailRestored] enableOk) emailTracked [emailRestored] 0%nat
              emailRestored 0) as (Hgone & Hnone & _).
  - reflexivity.
  - apply listedOnce_single.
  - by vm_compute.
  - reflexivity.
  - cbv zeta. split; [exact Hgone|exact Hnone].
Defined.

Lemma new_disabled_channel_is_recorded_witness :
  let r := processMediaTypes showInt showWholeMinutes true exCfg
             (cycleAt 20 [email] enableOk) ∅ in
  r.1 !! "7" = Some (20 * Minute) ∧ updatesOf "7" r.2 = 0%nat.
Proof.
  destruct (new_disabled_channel_is_recorded showInt showWholeMinutes true exCfg
              (cycleAt 20 [email] enableOk) ∅ [email] 0%nat email)
    as (Hrec & Hnone & _).
  - reflexivity.
  - apply listedOnce_single.
  - reflexivity.
  - reflexivity.
  - cbv zeta. split; [exact Hrec|exact Hnone].
Defined.

Lemma successful_enable_is_reported_and_saved_witness :
  let r := processMediaTypes showInt showWholeMinutes true exCfg
             (cycleAt 61 [email] enableOk) emailTracked in
  notifyIfWebhook exCfg (msgEnabled "Email") ⊆ r.2.
Proof.
  destruct (successful_enable_is_reported_and_saved showInt showWholeMinutes true exCfg
              (cycleAt 61 [email] enableOk) emailTracked [email] 0%nat email 0)
    as (_ & Hmsg & _).
  - reflexivity.
  - apply listedOnce_single.
  - reflexivity.
  - reflexivity.
  - by vm_compute.
  - reflexivity.
  - exact Hmsg.
Defined.

Lemma healthy_pass_is_silent_witness :
  processMediaTypes showInt showWholeMinutes true exCfg (cycleAt 20 [sms] enableOk)
    emailTracked = (emailTracked, []).
Proof.
  apply (healthy_pass_is_silent showInt showWholeMinutes true exCfg
           (cycleAt 20 [sms] enableOk) emailTracked [sms]).
  - reflexivity.
  - intros m ->%list_elem_of_singleton. split; [by vm_compute|reflexivity].
Defined.

Lemma entries_are_inherited_or_recorded_now_witness :
  emailTracked !! "7" = Some 0 ∨
  (0 = currentTime (cycleAt 20 [email; sms] enableOk) ∧
   ∃ l m, getMediaTypes showInt (mediaReply (cycleAt 20 [email; sms] enableOk)) = inr l ∧
          m ∈ l ∧ MediaTypeID m = "7" ∧ Status m = "1").
Proof.
  apply (entries_are_inherited_or_recorded_now showInt showWholeMinutes true exCfg
           (cycleAt 20 [email; sms] enableOk) emailTracked "7" 0).
  reflexivity.
Defined.

Lemma tracked_entry_kept_or_released_witness :
  let r := processMediaTypes showInt showWholeMinutes true exCfg
             (cycleAt 20 [email; sms] enableOk) emailTracked in
  r.1 !! "7" = Some 0 ∨
  (r.1 !! "7" = None ∧
   ∃ m, m ∈ [email; sms] ∧ MediaTypeID m = "7" ∧
        (Status m ≠ "1" ∨ MediatypeUpdate "7" ∈ r.2)).
Proof.
  apply (tracked_entry_kept_or_released showInt showWholeMinutes true exCfg
           (cycleAt 20 [email; sms] enableOk) emailTracked [email; sms] "7" 0).
  - reflexivity.
  - apply (bool_decide_unpack _). by vm_compute.
  - reflexivity.
Defined.

Lemma update_only_for_overdue_disabled_witness :
  ∃ firstSeen, emailTracked !! "7" = Some firstSeen ∧
               OffDuration exCfg ≤ Sub (61 * Minute) firstSeen.
Proof.
  destruct (update_only_for_overdue_disabled showInt showWholeMinutes true exCfg
              (cycleAt 61 [email] enableOk) emailTracked "7") as [_ Hdue].
  - vm_compute. apply elem_of_cons. right. by left.
  - apply Hdue. by vm_compute.
Defined.

Lemma updates_bounded_by_disabled_listed_witness :
  (updateCount (processMediaTypes showInt showWholeMinutes true exCfg
                  (cycleAt 61 [email; sms] enableOk) emailTracked).2 ≤ 1)%nat.
Proof.
  apply (updates_bounded_by_disabled_listed showInt showWholeMinutes true exCfg
           (cycleAt 61 [email; sms] enableOk) emailTracked [email; sms]).
  reflexivity.
Defined.

Lemma nonpositive_threshold_enables_on_next_pass_witness :
  let r1 := processMediaTypes showInt showWholeMinutes true exCfgZero
              (cycleAt 20 [email] enableOk) ∅ in
  let r2 := processMediaTypes showInt showWholeMinutes true exCfgZero
              (cycleAt 20 [email] enableOk) r1.1 in
  updatesOf "7" r1.2 = 0%nat ∧ updatesOf "7" r2.2 = 1%nat.
Proof.
  apply (nonpositive_threshold_enables_on_next_pass showInt showWholeMinutes true
           exCfgZero (cycleAt 20 [email] enableOk) (cycleAt 20 [email] enableOk) ∅
           [email] 0%nat [email] 0%nat email).
  - by vm_compute.
  - reflexivity.
  - apply listedOnce_single.
  - reflexivity.
  - apply listedOnce_single.
  - reflexivity.
  - reflexivity.
  - by vm_compute.
Defined.

Lemma empty_diff_iff_same_state_witness :
  compareGroupStatesIn (reverse (map_to_list synthCurr)) (reverse (map_to_list synthCurr))
    synthCurr synthCurr = [] ↔ synthCurr = synthCurr.
Proof.
  apply (empty_diff_iff_same_state synthCurr synthCurr
           (reverse (map_to_list synthCurr)) (reverse (map_to_list synthCurr))).
  - apply (bool_decide_unpack _). by vm_compute.
  - apply (bool_decide_unpack _). by vm_compute.
  - apply reverse_Permutation.
  - apply reverse_Permutation.
Defined.

Lemma each_change_is_posted_separately_witness :
  length (postsOf (processUserGroups showInt true exCfg synthSeen synthPrev false).2)
    = 4%nat.
Proof.
  rewrite (each_change_is_posted_separately showInt true exCfg synthSeen synthPrev
             synthCurr).
  - by vm_compute.
  - by vm_compute.
  - by vm_compute.
Defined.

Lemma prior_mirrors_last_observation_witness :
  groupState (mainLoop showInt showWholeMinutes true exCfg
                [mkCycle (cycleRefused 0) groupsDown; mkCycle (cycleRefused 5) groupsSeen;
                 mkCycle (cycleRefused 10) groupsDown]
                (startup ∅ FileNotExist)).1 = adminsStored.
Proof.
  rewrite (prior_mirrors_last_observation showInt showWholeMinutes true exCfg
             [mkCycle (cycleRefused 0) groupsDown; mkCycle (cycleRefused 5) groupsSeen;
              mkCycle (cycleRefused 10) groupsDown]
             (startup ∅ FileNotExist)).
  - by vm_compute.
  - split; [apply (bool_decide_unpack _); by vm_compute|reflexivity].
Defined.

Lemma unreadable_snapshot_is_rebaselined_witness :
  let r := pass showInt showWholeMinutes true exCfg (mkCycle (cycleRefused 0) groupsSeen)
             (startup ∅ (UnmarshalError synthPrev "unexpected end of JSON input")) in
  startup ∅ (UnmarshalError synthPrev "unexpected end of JSON input")
    = startup ∅ FileNotExist ∧
  groupState r.1 = adminsStored ∧
  r.2 = [WriteGroupState groupStateFilename adminsStored None].
Proof.
  apply (unreadable_snapshot_is_rebaselined showInt showWholeMinutes true exCfg ∅
           (UnmarshalError synthPrev "unexpected end of JSON input")
           (mkCycle (cycleRefused 0) groupsSeen) adminsStored).
  - right. right. right. eexists _, _. reflexivity.
  - by vm_compute.
Defined.

Lemma empty_snapshot_file_reports_all_groups_witness :
  let r := pass showInt showWholeMinutes true exCfg (mkCycle (cycleRefused 0) groupsSeen)
             (startup ∅ FileSizeZero) in
  groupState r.1 = adminsStored ∧
  r.2 = [SyslogWarning "UserGroup change detected: Добавлена группа: Admins ";
         MattermostPost (MattermostWebhook exCfg)
           "Изменения в UserGroup: Добавлена группа: Admins ";
         WriteGroupState groupStateFilename adminsStored None].
Proof.
  destruct (empty_snapshot_file_reports_all_groups showInt showWholeMinutes true exCfg ∅
              FileSizeZero (mkCycle (cycleRefused 0) groupsSeen) adminsStored)
    as [Hstate Hout].
  - by left.
  - by vm_compute.
  - by vm_compute.
  - cbv zeta. split; [exact Hstate|]. rewrite Hout. by vm_compute.
Defined.

Lemma loadConfig_takes_any_minutes_witness :
  ∃ cfg, loadConfig exAtoi exTrimSpace exEnv = inr cfg ∧
    (CheckInterval cfg = 5 * Minute ↔ -153722867 ≤ 5 ≤ 153722867) ∧
    (OffDuration cfg = 60 * Minute ↔ -153722867 ≤ 60 ≤ 153722867).
Proof.
  apply (loadConfig_takes_any_minutes exAtoi exTrimSpace exEnv 5 60); reflexivity.
Defined.

Lemma loadConfig_cuts_trailing_slashes_witness :
  ∃ cfg, loadConfig exAtoi exTrimSpace exEnv = inr cfg ∧
         ZabbixAPIURL cfg = "http://zabbix.example" ∧
         ∃ k, exEnv "ZABBIX_API_URL" = ZabbixAPIURL cfg +:+ slashes k.
Proof.
  eexists. split; [reflexivity|]. split; [reflexivity|].
  eapply (loadConfig_cuts_trailing_slashes exAtoi exTrimSpace exEnv). reflexivity.
Defined.

Lemma loadConfig_names_are_comma_separated_witness :
  ∃ cfg, loadConfig exAtoi exTrimSpace exEnv = inr cfg ∧
         MediaNames cfg = ["Email"; "SMS"] ∧
         ∃ parts, MediaNames cfg = exTrimSpace <$> parts ∧ parts ≠ [] ∧
                  String.concat "," parts = "Email,SMS" ∧
                  ∀ part, part ∈ parts → comma ∉ String.list_ascii_of_string part.
Proof.
  eexists. split; [reflexivity|]. split; [reflexivity|].
  eapply (loadConfig_names_are_comma_separated exAtoi exTrimSpace exEnv);
    [reflexivity|by vm_compute].
Defined.

Lemma unreadable_state_file_restarts_tracking_witness :
  let f := StateUnmarshalError emailTracked "unexpected end of JSON input" in
  let r := processMediaTypes showInt showWholeMinutes true exCfg
             (cycleAt 90 [email] enableOk) (initialState f) in
  initialState f = ∅ ∧ r.1 !! "7" = Some (90 * Minute) ∧ updateCount r.2 = 0%nat.
Proof.
  apply (unreadable_state_file_restarts_tracking showInt showWholeMinutes true exCfg
           (StateUnmarshalError emailTracked "unexpected end of JSON input")
           (cycleAt 90 [email] enableOk) [email] 0%nat email).
  - by intros content.
  - by vm_compute.
  - reflexivity.
  - apply listedOnce_single.
  - reflexivity.
Defined.
